(** * SD-MIAE: the momentum-iterative attack and the diffusion sampler

    A shallow embedding of [sdmiae.py].  The classifier and the Stable
    Diffusion pipeline are interfaces; Python effects (exceptions, the
    global random generator, tensor objects shared between names) are
    threaded through a small state-and-exception monad.

    The arithmetic of the tensors is modelled twice.  Where a property is
    an invariant that the design document states in exact arithmetic ("a
    real number") and grants a tolerance for, tensors are flattened to
    lists of rationals.  Where rounding decides the property (how far the
    attack drifts without the epsilon clamp, whether the guidance
    combination gives back one of its arguments), the same lines are
    written on binary32 numbers, each operation rounded to nearest even
    as the float32 tensors of the code round it, with the Python scalars
    in binary64. *)

From Stdlib Require Import List ZArith QArith Qminmax Qabs Lqa Lia SpecFloat.
From stdpp Require Import base option list gmap strings.
Import ListNotations.

Local Open Scope Q_scope.

(** ** Tensors *)

(** A tensor is the row-major list of its entries; the batch dimension is
    the outermost one, so [torch.cat] along it is list concatenation. *)
Abbreviation tensor := (list Q).

(** [torch.zeros_like(x)] *)
Definition zeros_like (x : tensor) : tensor := (λ _, 0) <$> x.

(** [a + b], [a - b] on tensors of one shape *)
Definition t_add (a b : tensor) : tensor := zip_with Qplus a b.
Definition t_sub (a b : tensor) : tensor := zip_with Qminus a b.

(** [c * x], [x + c], [x - c], [x / c] with a Python scalar [c] *)
Definition scalar_mul (c : Q) (x : tensor) : tensor := Qmult c <$> x.
Definition add_scalar (x : tensor) (c : Q) : tensor := (λ v, v + c) <$> x.
Definition sub_scalar (x : tensor) (c : Q) : tensor := (λ v, v - c) <$> x.
Definition div_scalar (x : tensor) (c : Q) : tensor := (λ v, v / c) <$> x.

(** [torch.min(a, b)], [torch.max(a, b)]: element-wise *)
Definition torch_min (a b : tensor) : tensor := zip_with Qmin a b.
Definition torch_max (a b : tensor) : tensor := zip_with Qmax a b.

(** [torch.clamp(x, lo, hi)] is [min(max(x, lo), hi)] on every entry *)
Definition clamp_entry (lo hi v : Q) : Q := Qmin (Qmax v lo) hi.
Definition torch_clamp (x : tensor) (lo hi : Q) : tensor :=
  clamp_entry lo hi <$> x.

(** [torch.sign]: -1, 0 or 1 *)
Definition sign_entry (v : Q) : Q :=
  match v ?= 0 with
  | Lt => -1
  | Eq => 0
  | Gt => 1
  end.
Definition torch_sign (x : tensor) : tensor := sign_entry <$> x.

(** [torch.norm(x, p=1)]: the sum of the absolute values of all entries *)
Definition norm_p1 (x : tensor) : Q := foldr (λ v acc, Qabs v + acc) 0 x.

(** [torch.cat([x] * 2)] and [x.chunk(2)] along the batch dimension, on a
    tensor of two rows of one size, which is what the denoising network
    returns for the two rows it is given: the rows are the two halves of
    the list.  (A network that returned one row would make the unpacking
    of line 103 raise; the interface below leaves such a network out.) *)
Definition cat2 (x : tensor) : tensor := x ++ x.
Definition chunk2 (x : tensor) : tensor * tensor :=
  let h := Nat.div2 (S (length x)) in (take h x, drop h x).

(** ** Python effects *)

Inductive exn : Type :=
  | ZeroDivisionError
  | KeyError
  | IndexError
  | RuntimeError.

Inductive outcome (A : Type) : Type :=
  | Returns (a : A)
  | Raises (e : exn).
Arguments Returns {A} a.
Arguments Raises {A} e.

(** Tensor objects that are bound to a name the caller keeps live in a
    heap and are addressed by their index. *)
Abbreviation loc := nat (only parsing).

(** The part of the interpreter state the program touches.  [clf_calls]
    and [sampler_inputs] only record what happened (the images the
    classifier was evaluated on, the latent values each sampling call
    received); the program never reads them. *)
Record World : Type := mkWorld {
  heap : list tensor;
  rng : nat;
  clf_calls : list tensor;
  sampler_inputs : list (loc * tensor);
  files : list (string * Z * tensor)
}.

Definition py (A : Type) : Type := World → outcome A * World.

#[global] Instance py_ret : MRet py := λ A a w, (Returns a, w).
#[global] Instance py_bind : MBind py := λ A B k c w,
  match c w with
  | (Returns a, w') => k a w'
  | (Raises e, w') => (Raises e, w')
  end.

Definition raise {A : Type} (e : exn) : py A := λ w, (Raises e, w).

(** [for x in xs: s = body(x, s)] *)
Fixpoint for_in {A S : Type} (xs : list A) (body : A → S → py S) (s : S)
    : py S :=
  match xs with
  | [] => mret s
  | x :: xs' => s' ← body x s; for_in xs' body s'
  end.

(** [range(n)] and [range(lo, hi)] *)
Definition range (n : Z) : list Z := seqZ 0 n.
Definition range2 (lo hi : Z) : list Z := seqZ lo (hi - lo).

(** Python's [/] on numbers raises on a zero divisor. *)
Definition py_truediv (x : Q) (n : Z) : py Q :=
  if (n =? 0)%Z then raise ZeroDivisionError else mret (x / inject_Z n).

(** Creating a tensor object, and reading the object behind a name. *)
Definition alloc (v : tensor) : py loc := λ w,
  (Returns (length (heap w)),
   mkWorld (heap w ++ [v]) (rng w) (clf_calls w) (sampler_inputs w) (files w)).

Definition load (l : loc) : py tensor := λ w, (Returns (heap w !!! l), w).

(** ** The classifier *)

(** The classifier is an opaque differentiable function.  [loss_grad x y]
    stands for lines 53-61: the forward pass on [x], the cross-entropy
    loss against [y], [loss.backward()] and the read of [x.grad]; the
    gradient has the shape of [x]. *)
Class Classifier (label : Type) : Type := {
  loss_grad : tensor → label → tensor;
  loss_grad_shape : ∀ x y, length (loss_grad x y) = length x
}.

Definition backward `{Classifier label} (x : tensor) (y : label)
    : py tensor := λ w,
  (Returns (loss_grad x y),
   mkWorld (heap w) (rng w) (clf_calls w ++ [x]) (sampler_inputs w) (files w)).

(** ** The attack *)

(** The two values an iteration rewrites. *)
Record AdvState : Type := mkAdv {
  st_images : tensor;
  st_momentum : tensor
}.

(** Line 62: the gradient divided by its L1 norm plus 1e-10. *)
Definition normalize (gradient : tensor) : tensor :=
  div_scalar gradient (norm_p1 gradient + 1e-10).

Section Attack.
Context `{Classifier label}.
Variables (labels : label) (epsilon alpha mu : Q) (use_epsilon : bool).
Variable original_images : tensor.

(** Lines 62-77: what one iteration does with the gradient it read. *)
Definition attack_update (gradient : tensor) (st : AdvState) : AdvState :=
  let gradient := normalize gradient in
  let momentum := t_add (scalar_mul mu (st_momentum st)) gradient in
  let images :=
    if use_epsilon then
      let images :=
        t_add (st_images st) (scalar_mul alpha (torch_sign momentum)) in
      torch_max (torch_min images (add_scalar original_images epsilon))
                (sub_scalar original_images epsilon)
    else
      t_add (st_images st) (scalar_mul alpha (torch_sign momentum)) in
  let images := torch_clamp images 0 1 in
  mkAdv images momentum.

(** Lines 52-79: the body of the loop. *)
Definition attack_iteration (t : Z) (st : AdvState) : py AdvState :=
  gradient ← backward (st_images st) labels;
  mret (attack_update gradient st).

(** The same transition without the effect, to name the state after
    [k] iterations. *)
Definition attack_step (st : AdvState) : AdvState :=
  attack_update (loss_grad (st_images st) labels) st.

Definition state_after (k : nat) (st : AdvState) : AdvState :=
  Nat.iter k attack_step st.
End Attack.

Definition sdmiae_attack `{Classifier label} (images : tensor)
    (labels : label) (epsilon : Q) (num_iter : Z) (mu : Q)
    (use_epsilon : bool) : py tensor :=
  let original_images := images in
  let momentum := zeros_like images in
  alpha ← py_truediv epsilon num_iter;
  st ← for_in (range num_iter)
         (attack_iteration labels epsilon alpha mu use_epsilon
            original_images)
         (mkAdv images momentum);
  mret (st_images st).

(** The state of [sdmiae_attack] after [k] iterations of its loop. *)
Definition attack_state `{Classifier label} (images : tensor)
    (labels : label) (epsilon : Q) (num_iter : Z) (mu : Q)
    (use_epsilon : bool) (k : nat) : AdvState :=
  state_after labels epsilon (epsilon / inject_Z num_iter) mu use_epsilon
    images k (mkAdv images (zeros_like images)).

(** The world once the classifier has been evaluated on [qs]. *)
Definition record_calls (w : World) (qs : list tensor) : World :=
  mkWorld (heap w) (rng w) (clf_calls w ++ qs) (sampler_inputs w) (files w).

(** ** The diffusion sampler *)

(** What the sampler and the orchestrator use of the Stable Diffusion
    pipeline: the scheduler, the denoising network, the decoder and the
    text encoder (behind its tokenizer).  None of them writes to its
    arguments. *)
Class Pipeline : Type := {
  timestep : Type;
  (** [scheduler.set_timesteps(n)] followed by [scheduler.timesteps] *)
  scheduler_timesteps : Z → list timestep;
  scale_model_input : tensor → timestep → tensor;
  unet : tensor → timestep → tensor → tensor;
  (** [scheduler.step(noise_pred, t, latents, eta=eta)[0]] *)
  scheduler_step : tensor → timestep → tensor → Q → tensor;
  init_noise_sigma : Q;
  vae_scaling_factor : Q;
  vae_scale_factor : Z;
  vae_decode : tensor → tensor;
  postprocess : tensor → tensor;
  unet_in_channels : Z;
  (** [text_encoder(tokenizer([s]).input_ids)[0]] *)
  encode_text : string → tensor
}.

(** The global generator of [torch.randn]: the draw it produces in state
    [k] for a tensor of [n] entries. *)
Class Generator : Type := { randn_draw : nat → nat → tensor }.

Definition torch_randn `{Generator} (numel : nat) : py tensor := λ w,
  (Returns (randn_draw (rng w) numel),
   mkWorld (heap w) (S (rng w)) (clf_calls w) (sampler_inputs w) (files w)).

(** [torch.randn(shape)]: a negative dimension is refused before anything
    is drawn; otherwise the tensor has the product of the dimensions as
    its number of entries. *)
Definition torch_randn_shape `{Generator} (shape : list Z) : py tensor :=
  if forallb (λ d, 0 <=? d)%Z shape
  then torch_randn (Z.to_nat (foldr Z.mul 1%Z shape))
  else raise RuntimeError.

(** Line 104 *)
Definition guidance (noise_pred_uncond noise_pred_text : tensor)
    (guidance_scale : Q) : tensor :=
  t_add noise_pred_uncond
    (scalar_mul guidance_scale (t_sub noise_pred_text noise_pred_uncond)).

(** Records the latent object a sampling call received and its value. *)
Definition observe_latents (latents : loc) : py () := λ w,
  (Returns (),
   mkWorld (heap w) (rng w) (clf_calls w)
     (sampler_inputs w ++ [(latents, heap w !!! latents)]) (files w)).

Section Sampler.
Context `{Pipeline}.
Variables (all_embeddings : tensor) (guidance_scale eta : Q).

(** Lines 100-105: the body of the loop; the name [latents] is bound to
    a new object. *)
Definition denoise (t : timestep) (latents : loc) : py loc :=
  x ← load latents;
  let latent_model_input := cat2 x in
  let latent_model_input := scale_model_input latent_model_input t in
  let noise_pred := unet latent_model_input t all_embeddings in
  let '(noise_pred_uncond, noise_pred_text) := chunk2 noise_pred in
  let noise_pred :=
    guidance noise_pred_uncond noise_pred_text guidance_scale in
  alloc (scheduler_step noise_pred t x eta).

Definition forward_diffusion (latents : loc) (num_inference_steps : Z)
    : py tensor :=
  _ ← observe_latents latents;
  let timesteps_tensor := scheduler_timesteps num_inference_steps in
  latents ← for_in timesteps_tensor denoise latents;
  x ← load latents;
  latents ← alloc (div_scalar x vae_scaling_factor);
  x ← load latents;
  let image := vae_decode x in
  mret (postprocess image).
End Sampler.

(** ** The orchestrator *)

Record Args : Type := mkArgs {
  img_size : Z;
  arg_guidance_scale : Q;
  num_inference_steps : Z;
  num_samples_per_class : Z;
  class_ids : list Z;
  arg_epsilon : Q;
  arg_mu : Q
}.

(** The object bound to [in100_class_index], as [main] uses it: indexed
    by a class index it gives the label (line 143), indexed by a label it
    gives the entry whose first component is the numeric class id (line
    144). *)
Record ClassIndex : Type := mkClassIndex {
  by_index : gmap Z string;
  by_label : gmap string (list Z)
}.

(** What [json.load] (line 19) makes of a JSON object: a dict whose keys
    are all strings, so that no integer is a key of it. *)
Definition json_load_object (entries : gmap string (list Z)) : ClassIndex :=
  mkClassIndex ∅ entries.

(** [d[k]] on a dict and [l[i]] on a list *)
Definition getitem `{Countable K} {V : Type} (d : gmap K V) (k : K)
    : py V :=
  match d !! k with
  | Some v => mret v
  | None => raise KeyError
  end.

Definition subscript {V : Type} (l : list V) (i : nat) : py V :=
  match l !! i with
  | Some v => mret v
  | None => raise IndexError
  end.

(** Python's [//] on integers *)
Definition py_floordiv (a b : Z) : py Z :=
  if (b =? 0)%Z then raise ZeroDivisionError else mret (a `div` b)%Z.

(** [to_pil_image(image[0]).save(results/<label>/sample_<j>.png)] *)
Definition save (label : string) (j : Z) (image : tensor) : py () := λ w,
  (Returns (),
   mkWorld (heap w) (rng w) (clf_calls w) (sampler_inputs w)
     (files w ++ [(label, j, image)])).

Section Orchestrator.
Context `{Pipeline} `{Generator} `{Classifier Z}.
Variables (in100_class_index : ClassIndex) (args : Args).

(** Lines 159-170: one sample. *)
Definition sample (label : string) (class_id : Z) (latents : loc)
    (all_embeddings : tensor) (j : Z) (_ : ()) : py () :=
  image ← forward_diffusion all_embeddings (arg_guidance_scale args) 0
            latents (num_inference_steps args);
  image ← sdmiae_attack image class_id (arg_epsilon args) 30
            (arg_mu args) true;
  save label j image.

(** Line 158: the loop over the samples of one class. *)
Definition sample_loop (label : string) (class_id : Z) (latents : loc)
    (all_embeddings : tensor) : py () :=
  for_in (range (num_samples_per_class args))
    (sample label class_id latents all_embeddings) ().

(** Lines 146-170: the embeddings, the latent and the samples of a class
    whose label and numeric id are known. *)
Definition class_samples (label : string) (class_id : Z) : py () :=
  let text_embeddings := encode_text label in
  let uncond_embeddings := encode_text "" in
  side ← py_floordiv (img_size args) vae_scale_factor;
  z ← torch_randn_shape [1%Z; unet_in_channels; side; side];
  latents ← alloc z;
  x ← load latents;
  latents ← alloc ((λ v, v * init_noise_sigma) <$> x);
  sample_loop label class_id latents
    (uncond_embeddings ++ text_embeddings).

(** Lines 143-170: one class. *)
Definition class_body (i : Z) (_ : ()) : py () :=
  label ← getitem (by_index in100_class_index) i;
  entry ← getitem (by_label in100_class_index) label;
  class_id ← subscript entry 0;
  class_samples label class_id.

Definition main : py () :=
  lo ← subscript (class_ids args) 0;
  hi ← subscript (class_ids args) 1;
  for_in (range2 lo (hi + 1)) class_body ().
End Orchestrator.

(** ** The embedding layer *)

(** What the calls of [CustomEmbedding] into torch raise: an index out
    of range, and whatever the installed torch raises for the
    concatenation of no tensor. *)
Inductive torch_exn : Type :=
  | TorchIndexError
  | TorchEmptyCat.

(** [nn.Embedding]: a table of rows and whether it is frozen. *)
Record Embedding : Type := mkEmbedding {
  weight : list tensor;
  frozen : bool
}.

(** [nn.Embedding.from_pretrained(rows, freeze=freeze)] *)
Definition from_pretrained (rows : list tensor) (freeze : bool)
    : Embedding :=
  mkEmbedding rows freeze.

(** [weight[k]] as an embedding looks it up: no negative index. *)
Definition row_at (rows : list tensor) (k : Z) : torch_exn + tensor :=
  if (k <? 0)%Z then inl TorchIndexError
  else match rows !! Z.to_nat k with
       | Some r => inr r
       | None => inl TorchIndexError
       end.

(** [e(input)]: the rows of [e] at the indices [input]. *)
Fixpoint embedding_call (e : Embedding) (input : list Z)
    : torch_exn + list tensor :=
  match input with
  | [] => inr []
  | k :: ks =>
      match row_at (weight e) k with
      | inl err => inl err
      | inr r =>
          match embedding_call e ks with
          | inl err => inl err
          | inr rs => inr (r :: rs)
          end
      end
  end.

(** [ms[idx]] on an [nn.ModuleList]: an index from [-len] on counts from
    the end. *)
Definition modulelist_getitem {A : Type} (ms : list A) (idx : Z)
    : torch_exn + A :=
  let n := Z.of_nat (length ms) in
  if ((- n <=? idx) && (idx <? n))%Z then
    match ms !! Z.to_nat (if (idx <? 0)%Z then idx + n else idx)%Z with
    | Some m => inr m
    | None => inl TorchIndexError
    end
  else inl TorchIndexError.

(** [torch.cat(ts)] of row blocks: refuses the empty list. *)
Definition torch_cat (ts : list (list tensor)) : torch_exn + list tensor :=
  match ts with
  | [] => inl TorchEmptyCat
  | _ => inr (concat ts)
  end.

Record CustomEmbedding : Type := mkCustomEmbedding {
  zero_index : list Z;
  weights : list Embedding
}.

(** Lines 23-29: one single-row embedding per row of the matrix, frozen
    unless its index is [update_index]. *)
Definition CustomEmbedding_init (embedding_weights : list tensor)
    (update_index : Z) : CustomEmbedding :=
  mkCustomEmbedding [0%Z]
    ((λ i : nat,
        from_pretrained (take 1 (drop i embedding_weights))
          (negb (Z.of_nat i =? update_index)%Z))
     <$> seq 0 (length embedding_weights)).

(** The list comprehension of line 32, over the tokens [x[0]]. *)
Fixpoint embed_tokens (self : CustomEmbedding) (tokens : list Z)
    : torch_exn + list (list tensor) :=
  match tokens with
  | [] => inr []
  | xx :: rest =>
      match modulelist_getitem (weights self) xx with
      | inl err => inl err
      | inr e =>
          match embedding_call e (zero_index self) with
          | inl err => inl err
          | inr rows =>
              match embed_tokens self rest with
              | inl err => inl err
              | inr blocks => inr (rows :: blocks)
              end
          end
      end
  end.

(** Lines 31-32 *)
Definition CustomEmbedding_forward (self : CustomEmbedding)
    (x : list (list Z)) : torch_exn + list tensor :=
  match x !! 0%nat with
  | None => inl TorchIndexError
  | Some tokens =>
      match embed_tokens self tokens with
      | inl err => inl err
      | inr blocks => torch_cat blocks
      end
  end.

(** ** The classifier on preprocessed images *)

(** Lines 120-121 *)
Definition forward_classifier {image inputs logits : Type} (x : image)
    (preprocessor : image → inputs) (clf : inputs → logits) : logits :=
  clf (preprocessor x).

(** * The same code on float32 tensors

    The tensors of the program hold float32 values and its Python numbers
    are doubles.  This part embeds lines 46-81 and line 104 with the
    rounding of every operation, on [spec_float] with the parameters of
    binary32 (24 bits, exponents below 128) and binary64; it decides the
    claims that turn on rounding. *)

Abbreviation f32 := spec_float (only parsing).
Abbreviation float := spec_float (only parsing).

(** Python's [float]: the conversion of an [int], the division, and a
    decimal literal [num / den] whose two parts are exact doubles. *)
Definition float_of_int (z : Z) : float := binary_normalize 53 1024 z 0 false.
Definition float_div (x y : float) : float := SFdiv 53 1024 x y.
Definition float_literal (num den : Z) : float :=
  float_div (float_of_int num) (float_of_int den).

(** A Python number entering an operation with a float32 tensor is
    rounded to float32. *)
Definition to_f32 (x : float) : f32 :=
  match x with
  | S754_finite s m e => binary_normalize 24 128 (cond_Zopp s (Zpos m)) e s
  | _ => x
  end.

Definition f32_add (x y : f32) : f32 := SFadd 24 128 x y.
Definition f32_sub (x y : f32) : f32 := SFsub 24 128 x y.
Definition f32_mul (x y : f32) : f32 := SFmul 24 128 x y.
Definition f32_div (x y : f32) : f32 := SFdiv 24 128 x y.
Definition f32_zero : f32 := S754_zero false.
Definition f32_one : f32 := to_f32 (float_of_int 1).

Definition f32_isnan (x : f32) : bool :=
  match x with
  | S754_nan => true
  | _ => false
  end.

(** The value of a finite float32 or double as a rational. *)
Definition float_value (x : float) : Q :=
  match x with
  | S754_finite s m e =>
      inject_Z (cond_Zopp s (Zpos m))
      * (if (0 <=? e)%Z then inject_Z (2 ^ e) else / inject_Z (2 ^ (- e)))
  | _ => 0
  end.

(** [torch.sign] as its kernel computes it: [(0 < a) - (a < 0)]. *)
Definition f32_of_bool (b : bool) : f32 := if b then f32_one else f32_zero.
Definition sign32 (a : f32) : f32 :=
  f32_sub (f32_of_bool (SFltb f32_zero a)) (f32_of_bool (SFltb a f32_zero)).

(** [std::max(a, b)] and [std::min(a, b)] *)
Definition std_max (a b : f32) : f32 := if SFltb a b then b else a.
Definition std_min (a b : f32) : f32 := if SFltb b a then b else a.

(** [torch.max(a, b)] and [torch.min(a, b)] on one entry: a NaN on either
    side is the result. *)
Definition maximum32 (a b : f32) : f32 :=
  if f32_isnan a || f32_isnan b then S754_nan else std_max a b.
Definition minimum32 (a b : f32) : f32 :=
  if f32_isnan a || f32_isnan b then S754_nan else std_min a b.

(** [torch.clamp(x, lo, hi)] on one entry *)
Definition clamp32 (lo hi : float) (a : f32) : f32 :=
  std_min (std_max a (to_f32 lo)) (to_f32 hi).

(** [torch.norm(x, p=1)] on float32: the order in which torch adds the
    absolute values up is its own, so the reduction is an interface; on a
    tensor of one entry it is the absolute value of that entry. *)
Class Reduction : Type := {
  torch_norm_p1 : list f32 → f32;
  torch_norm_p1_single : ∀ g, torch_norm_p1 [g] = SFabs g
}.

(** The classifier on float32 images, as [Classifier] is on exact ones. *)
Class Classifier32 (label : Type) : Type := {
  loss_grad32 : list f32 → label → list f32;
  loss_grad32_shape : ∀ x y, length (loss_grad32 x y) = length x
}.

Record AdvState32 : Type := mkAdv32 {
  st32_images : list f32;
  st32_momentum : list f32
}.

(** Line 62 *)
Definition normalize32 `{Reduction} (gradient : list f32) : list f32 :=
  let denominator :=
    f32_add (torch_norm_p1 gradient) (to_f32 (float_literal 1 (10 ^ 10))) in
  (λ g, f32_div g denominator) <$> gradient.

Section Attack32.
Context `{Reduction} `{Classifier32 label}.
Variables (labels : label) (epsilon alpha mu : float) (use_epsilon : bool).
Variable original_images : list f32.

(** Lines 62-77 *)
Definition attack_update32 (gradient : list f32) (st : AdvState32)
    : AdvState32 :=
  let gradient := normalize32 gradient in
  let momentum :=
    zip_with f32_add (f32_mul (to_f32 mu) <$> st32_momentum st) gradient in
  let step := f32_mul (to_f32 alpha) <$> (sign32 <$> momentum) in
  let images :=
    if use_epsilon then
      let images := zip_with f32_add (st32_images st) step in
      zip_with maximum32
        (zip_with minimum32 images
           ((λ o, f32_add o (to_f32 epsilon)) <$> original_images))
        ((λ o, f32_sub o (to_f32 epsilon)) <$> original_images)
    else
      zip_with f32_add (st32_images st) step in
  let images := clamp32 (float_of_int 0) (float_of_int 1) <$> images in
  mkAdv32 images momentum.

(** Lines 52-79 *)
Definition attack_step32 (st : AdvState32) : AdvState32 :=
  attack_update32 (loss_grad32 (st32_images st) labels) st.
End Attack32.

(** Lines 46-81 on float32 images, with Python floats [epsilon] and [mu]
    and a Python int [num_iter]. *)
Definition sdmiae_attack32 `{Reduction} `{Classifier32 label}
    (images : list f32) (labels : label) (epsilon : float) (num_iter : Z)
    (mu : float) (use_epsilon : bool) : outcome (list f32) :=
  let original_images := images in
  let momentum := (λ _, f32_zero) <$> images in
  if (num_iter =? 0)%Z then Raises ZeroDivisionError
  else
    let alpha := float_div epsilon (float_of_int num_iter) in
    Returns
      (st32_images
         (Nat.iter (Z.to_nat num_iter)
            (attack_step32 labels epsilon alpha mu use_epsilon
               original_images)
            (mkAdv32 images momentum))).

(** Line 104 on one entry of the float32 predictions, with the Python
    float [guidance_scale]. *)
Definition guidance32 (noise_pred_uncond noise_pred_text : f32)
    (guidance_scale : float) : f32 :=
  f32_add noise_pred_uncond
    (f32_mul (to_f32 guidance_scale)
       (f32_sub noise_pred_text noise_pred_uncond)).

(** A float32 that is neither an infinity nor a NaN. *)
Definition f32_finite (x : f32) : bool :=
  match x with
  | S754_zero _ | S754_finite _ _ _ => true
  | _ => false
  end.

Definition in_unit32 (x : f32) : Prop :=
  SFleb f32_zero x = true ∧ SFleb x f32_one = true.

(** ** The latent of a class *)

(** The latent [main] builds for a class when the generator is in state
    [k]: the draw, scaled by the initial sigma. *)
Definition class_latent `{Pipeline} `{Generator} (args : Args) (k : nat)
    : tensor :=
  let side := (img_size args `div` vae_scale_factor)%Z in
  (λ v, v * init_noise_sigma)
  <$> randn_draw k
        (Z.to_nat (foldr Z.mul 1%Z [1%Z; unet_in_channels; side; side])).

(** ** Vocabulary of the properties *)

(** What lines 65-77 compute at one position of the tensors: the new
    momentum entry and the new pixel. *)
Definition momentum_entry (mu m g : Q) : Q := mu * m + g.

Definition pixel_entry (epsilon alpha : Q) (use_epsilon : bool)
    (o x m : Q) : Q :=
  clamp_entry 0 1
    (if use_epsilon
     then Qmax (Qmin (x + alpha * sign_entry m) (o + epsilon)) (o - epsilon)
     else x + alpha * sign_entry m).

Definition in_unit (v : Q) : Prop := 0 <= v <= 1.
Definition within (epsilon : Q) (x o : Q) : Prop := Qabs (x - o) <= epsilon.

(** [q] to the power [n], and the sum of [f d] over the [d] of a list. *)
Definition Qpow (q : Q) (n : nat) : Q := Nat.iter n (Qmult q) 1.
Definition sum_over (f : nat → Q) (ds : list nat) : Q :=
  foldr (λ d acc, f d + acc) 0 ds.

(** A state whose two tensors have [n] entries. *)
Definition shaped (n : nat) (st : AdvState) : Prop :=
  length (st_images st) = n ∧ length (st_momentum st) = n.

(** How a call may change the world: tensor objects are only added, the
    generator is not consumed, and [seen] is what the sampler recorded. *)
Definition evolves (w w' : World) (seen : list (loc * tensor)) : Prop :=
  heap w `prefix_of` heap w'
  ∧ rng w' = rng w
  ∧ sampler_inputs w' = sampler_inputs w ++ seen.

(** ** Small instances, to run the model on *)

(** A classifier whose loss grows with every pixel. *)
Definition rising_classifier : Classifier Z :=
  {| loss_grad := λ x _, (λ _, 1) <$> x;
     loss_grad_shape := λ x _, length_fmap (λ _ : Q, 1) x |}.

(** A two-step pipeline on tensors of a few entries. *)
Definition small_pipeline : Pipeline :=
  {| timestep := Z;
     scheduler_timesteps := λ n, seqZ 0 n;
     scale_model_input := λ x _, x;
     unet := λ x _ _, x;
     scheduler_step := λ noise _ latents _,
       t_sub latents (scalar_mul 0.5 noise);
     init_noise_sigma := 1;
     vae_scaling_factor := 0.5;
     vae_scale_factor := 8;
     vae_decode := λ x, x;
     postprocess := λ x, torch_clamp x 0 1;
     unet_in_channels := 1;
     encode_text := λ s, [inject_Z (Z.of_nat (String.length s))] |}.

(** A generator whose [k]-th draw is the constant tensor [k + 1/4]. *)
Definition counting_generator : Generator :=
  {| randn_draw := λ k n, replicate n (inject_Z (Z.of_nat k) + 0.25) |}.

Definition one_class_index : ClassIndex :=
  {| by_index := {[ 0%Z := "tench" ]};
     by_label := {[ "tench" := [0%Z] ]} |}.

(** One class, two samples. *)
Definition two_samples : Args :=
  {| img_size := 16;
     arg_guidance_scale := 9.5;
     num_inference_steps := 2;
     num_samples_per_class := 2;
     class_ids := [0%Z; 0%Z];
     arg_epsilon := 0.03;
     arg_mu := 0 |}.

(** A classifier whose loss does not depend on the image. *)
Definition flat_classifier : Classifier Z :=
  {| loss_grad := λ x _, (λ _, 0) <$> x;
     loss_grad_shape := λ x _, length_fmap (λ _ : Q, 0) x |}.

(** The arguments of [two_classes] with other class ids. *)
Definition with_class_ids (ids : list Z) : Args :=
  {| img_size := 16;
     arg_guidance_scale := 9.5;
     num_inference_steps := 2;
     num_samples_per_class := 2;
     class_ids := ids;
     arg_epsilon := 0.03;
     arg_mu := 0 |}.

(** A matrix of two rows. *)
Definition two_rows : list tensor := [[1; 2]; [3; 4]].

(** The rising classifier on float32 images. *)
Definition rising_classifier32 : Classifier32 () :=
  {| loss_grad32 := λ x _, (λ _, f32_one) <$> x;
     loss_grad32_shape := λ x _, length_fmap (λ _ : f32, f32_one) x |}.

(** The absolute values added up from the left. *)
Definition left_to_right : Reduction :=
  {| torch_norm_p1 := λ x, foldl (λ acc g, f32_add acc (SFabs g)) f32_zero x;
     torch_norm_p1_single := λ g,
       match g with
       | S754_zero _ | S754_infinity _ | S754_nan | S754_finite _ _ _ =>
           eq_refl
       end |}.

(** A classifier whose loss gradient is the image itself. *)
Definition tracking_classifier : Classifier Z :=
  {| loss_grad := λ x _, x; loss_grad_shape := λ x _, eq_refl |}.

Definition empty_world : World := mkWorld [] 0 [] [] [].

(** * Properties *)

(** ** Entries *)

Lemma Qabs_spec x : (0 <= x ∧ Qabs x == x) ∨ (x <= 0 ∧ Qabs x == - x).
Proof. apply Qabs_case; intros; [left|right]; split; auto; reflexivity. Qed.

Lemma sign_entry_cases v :
  (v < 0 ∧ sign_entry v = -1) ∨ (v == 0 ∧ sign_entry v = 0)
  ∨ (0 < v ∧ sign_entry v = 1).
Proof.
  unfold sign_entry. destruct (v ?= 0) eqn:E.
  - right; left. split; [by apply Qeq_alt|done].
  - left. split; [by apply Qlt_alt|done].
  - right; right. split; [by apply Qgt_alt|done].
Qed.

(** Names every absolute value, minimum and maximum of the goal and keeps
    only its defining inequalities, which are linear. *)
Ltac q_name t spec :=
  let a := fresh "a" in pose proof spec; set (a := t) in *; clearbody a.
Ltac q_abstract :=
  repeat match goal with
  | |- context [Qabs ?x] => q_name (Qabs x) (Qabs_spec x)
  | _ : context [Qabs ?x] |- _ => q_name (Qabs x) (Qabs_spec x)
  | |- context [Qmin ?x ?y] => q_name (Qmin x y) (Q.min_spec x y)
  | _ : context [Qmin ?x ?y] |- _ => q_name (Qmin x y) (Q.min_spec x y)
  | |- context [Qmax ?x ?y] => q_name (Qmax x y) (Q.max_spec x y)
  | _ : context [Qmax ?x ?y] |- _ => q_name (Qmax x y) (Q.max_spec x y)
  end.

Lemma clamp_entry_range lo hi v : lo <= hi → lo <= clamp_entry lo hi v <= hi.
Proof. intros. unfold clamp_entry. q_abstract. lra. Qed.

Lemma pixel_entry_within epsilon alpha o x m :
  0 <= epsilon → in_unit o →
  within epsilon (pixel_entry epsilon alpha true o x m) o.
Proof.
  unfold in_unit, within, pixel_entry, clamp_entry. intros.
  generalize (x + alpha * sign_entry m). intros y. q_abstract. lra.
Qed.

Lemma pixel_entry_zero_ball epsilon alpha o x m :
  epsilon == 0 → in_unit o → pixel_entry epsilon alpha true o x m == o.
Proof.
  unfold in_unit, pixel_entry, clamp_entry. intros.
  generalize (x + alpha * sign_entry m). intros y. q_abstract. lra.
Qed.

(** ** Tensors, entry by entry *)

Lemma norm_p1_nonneg g : 0 <= norm_p1 g.
Proof.
  induction g as [|v g IH]; simpl; [lra|].
  pose proof (Qabs_nonneg v). lra.
Qed.

Section Update.
Variables (epsilon alpha mu : Q) (use_epsilon : bool).
Variables (original_images gradient : tensor) (st : AdvState).

Let st' :=
  attack_update epsilon alpha mu use_epsilon original_images gradient st.

Lemma attack_update_shaped n :
  length original_images = n → length gradient = n → shaped n st →
  shaped n st'.
Proof.
  intros Ho Hg [Hx Hm]. subst st'. unfold shaped, attack_update. simpl.
  unfold normalize, torch_clamp, torch_max, torch_min, t_add, scalar_mul,
    torch_sign, add_scalar, sub_scalar, div_scalar.
  destruct use_epsilon;
    repeat first [rewrite length_fmap | rewrite length_zip_with]; lia.
Qed.

(** Every entry of the new image comes from the entries at its
    position. *)
Lemma attack_update_images i v :
  st_images st' !! i = Some v →
  ∃ x m g, st_images st !! i = Some x ∧ st_momentum st !! i = Some m
    ∧ gradient !! i = Some g
    ∧ (use_epsilon = true → is_Some (original_images !! i))
    ∧ ∀ o, (use_epsilon = true → original_images !! i = Some o) →
        v = pixel_entry epsilon alpha use_epsilon o x
              (momentum_entry mu m (g / (norm_p1 gradient + 1e-10))).
Proof.
  subst st'. unfold attack_update. cbn [st_images st_momentum].
  unfold normalize, torch_clamp, torch_max, torch_min, t_add, scalar_mul,
    torch_sign, add_scalar, sub_scalar, div_scalar.
  destruct use_epsilon;
    rewrite ?list_lookup_fmap, ?lookup_zip_with, ?list_lookup_fmap,
      ?lookup_zip_with, ?list_lookup_fmap, ?lookup_zip_with,
      ?list_lookup_fmap;
    destruct (st_images st !! i) as [x|]; simpl; try done;
    destruct (st_momentum st !! i) as [m|]; simpl; try done;
    destruct (gradient !! i) as [g|]; simpl; try done.
  - destruct (original_images !! i) as [o|]; simpl; try done.
    intros [= <-]. exists x, m, g. repeat split; eauto.
    intros o' Ho'. by specialize (Ho' eq_refl) as [= <-].
  - intros [= <-]. exists x, m, g. repeat split; eauto. done.
Qed.
End Update.

(** ** The loop of the attack *)

Lemma record_calls_nil w : record_calls w [] = w.
Proof. destruct w. unfold record_calls. simpl. by rewrite app_nil_r. Qed.

Lemma record_calls_app w qs qs' :
  record_calls (record_calls w qs) qs' = record_calls w (qs ++ qs').
Proof. unfold record_calls. simpl. by rewrite app_assoc. Qed.

Lemma normalize_denominator g : 0 < norm_p1 g + 1e-10.
Proof.
  pose proof (norm_p1_nonneg g).
  change 1e-10 with (1 # 10000000000). lra.
Qed.

Section Loop.
Context `{Classifier label}.
Variables (labels : label) (epsilon alpha mu : Q) (use_epsilon : bool).
Variable original_images : tensor.

Let step :=
  attack_step labels epsilon alpha mu use_epsilon original_images.
Let after :=
  state_after labels epsilon alpha mu use_epsilon original_images.
Let body :=
  attack_iteration labels epsilon alpha mu use_epsilon original_images.

Lemma state_after_succ k st : after (S k) st = step (after k st).
Proof. done. Qed.

Lemma state_after_shift k st : after (S k) st = after k (step st).
Proof. apply Nat.iter_succ_r. Qed.

Lemma attack_step_shaped n st :
  length original_images = n → shaped n st → shaped n (step st).
Proof.
  intros Ho Hst. subst step. unfold attack_step.
  apply attack_update_shaped; [exact Ho| |exact Hst].
  rewrite loss_grad_shape. apply Hst.
Qed.

Lemma state_after_shaped n k st :
  length original_images = n → shaped n st → shaped n (after k st).
Proof.
  intros Ho Hst. induction k as [|k IH]; [exact Hst|].
  rewrite state_after_succ. apply attack_step_shaped; [exact Ho|exact IH].
Qed.

(** The loop returns the state after as many steps as its range has
    elements, and evaluates the classifier once per step, on the image
    the step starts from. *)
Lemma for_in_attack (ts : list Z) st w :
  for_in ts body st w
  = (Returns (after (length ts) st),
     record_calls w ((λ i, st_images (after i st)) <$> seq 0 (length ts))).
Proof.
  revert st w. induction ts as [|t ts IH]; intros st w.
  - simpl. by rewrite record_calls_nil.
  - change (for_in (t :: ts) body st w)
      with (for_in ts body (step st) (record_calls w [st_images st])).
    rewrite IH, record_calls_app. cbn [length seq fmap list_fmap].
    rewrite state_after_shift. do 3 f_equal.
    rewrite <- fmap_S_seq, <- list_fmap_compose.
    apply list_fmap_ext. intros _ i _. cbn [compose].
    by rewrite state_after_shift.
Qed.
End Loop.

(** With a non-zero iteration count the attack returns the image of the
    state after [num_iter] steps (none when [num_iter] is negative). *)
Lemma sdmiae_attack_returns `{Classifier label} (images : tensor)
    (labels : label) epsilon num_iter mu use_epsilon w :
  num_iter ≠ 0%Z →
  sdmiae_attack images labels epsilon num_iter mu use_epsilon w
  = (Returns (st_images (attack_state images labels epsilon num_iter mu
                           use_epsilon (Z.to_nat num_iter))),
     record_calls w
       ((λ i, st_images (attack_state images labels epsilon num_iter mu
                           use_epsilon i))
        <$> seq 0 (Z.to_nat num_iter))).
Proof.
  intros Hn. unfold sdmiae_attack, py_truediv.
  destruct (Z.eqb_spec num_iter 0) as [|_]; [done|].
  unfold mbind, py_bind at 1. unfold mret at 1, py_ret at 1.
  unfold mbind, py_bind. rewrite for_in_attack.
  unfold range. rewrite length_seqZ. done.
Qed.

Lemma attack_state_shaped `{Classifier label} (images : tensor)
    (labels : label) epsilon num_iter mu use_epsilon k :
  shaped (length images)
    (attack_state images labels epsilon num_iter mu use_epsilon k).
Proof.
  apply state_after_shaped; [done|]. split; simpl; [done|].
  unfold zeros_like. by rewrite length_fmap.
Qed.

(** ** One update, on whole tensors *)

Section UpdateFacts.
Variables (epsilon alpha mu : Q) (use_epsilon : bool).
Variables (original_images gradient : tensor) (st : AdvState).

Let st' :=
  attack_update epsilon alpha mu use_epsilon original_images gradient st.

Lemma attack_update_unit : Forall in_unit (st_images st').
Proof.
  subst st'. unfold attack_update. cbn [st_images]. unfold torch_clamp.
  apply Forall_fmap, Forall_true. intros v. apply clamp_entry_range. lra.
Qed.

Section Ball.
Hypothesis Hue : use_epsilon = true.
Hypothesis Ho : Forall in_unit original_images.
Hypothesis Hg : length gradient = length original_images.
Hypothesis Hst : shaped (length original_images) st.

Lemma attack_update_within :
  0 <= epsilon → Forall2 (within epsilon) (st_images st') original_images.
Proof.
  intros He. apply Forall2_same_length_lookup_2.
  { by apply (attack_update_shaped epsilon alpha mu use_epsilon
                original_images gradient st). }
  intros i v o Hv Hoi.
  destruct (attack_update_images _ _ _ _ _ _ _ _ _ Hv)
    as (x & m & g & Hx & Hm & Hgi & _ & Hval).
  rewrite (Hval o (λ _, Hoi)), Hue.
  apply pixel_entry_within; [exact He|].
  exact (Forall_lookup_1 _ _ _ _ Ho Hoi).
Qed.

Lemma attack_update_zero_ball :
  epsilon == 0 → Forall2 Qeq (st_images st') original_images.
Proof.
  intros He. apply Forall2_same_length_lookup_2.
  { by apply (attack_update_shaped epsilon alpha mu use_epsilon
                original_images gradient st). }
  intros i v o Hv Hoi.
  destruct (attack_update_images _ _ _ _ _ _ _ _ _ Hv)
    as (x & m & g & Hx & Hm & Hgi & _ & Hval).
  rewrite (Hval o (λ _, Hoi)), Hue.
  apply pixel_entry_zero_ball; [exact He|].
  exact (Forall_lookup_1 _ _ _ _ Ho Hoi).
Qed.
End Ball.
End UpdateFacts.

(** ** The states of the attack *)

Section States.
Context `{Classifier label}.
Variables (images : tensor) (labels : label).
Variables (epsilon : Q) (num_iter : Z) (mu : Q) (use_epsilon : bool).

Let state := attack_state images labels epsilon num_iter mu use_epsilon.
Let alpha := epsilon / inject_Z num_iter.

Lemma attack_state_zero : state 0%nat = mkAdv images (zeros_like images).
Proof. reflexivity. Qed.

Lemma attack_state_succ k :
  state (S k)
  = attack_update epsilon alpha mu use_epsilon images
      (loss_grad (st_images (state k)) labels) (state k).
Proof. reflexivity. Qed.

Lemma attack_state_gradient_shape k :
  length (loss_grad (st_images (state k)) labels) = length images.
Proof.
  rewrite loss_grad_shape.
  apply (attack_state_shaped images labels epsilon num_iter mu use_epsilon).
Qed.

End States.

(** ** The claims on the attack *)

(** C2: for every input, both values of [use_epsilon] and every
    [num_iter >= 1], every pixel of the image at the end of each iteration
    lies in [0,1], and so does every pixel of the image [sdmiae_attack]
    returns: the clamp of line 77 runs on every iteration. *)
Theorem pixel_range_invariant `{Classifier label} (images : tensor)
    (labels : label) (epsilon : Q) (num_iter : Z) (mu : Q)
    (use_epsilon : bool) (w : World) :
  (1 <= num_iter)%Z →
  (∀ k, (1 ≤ k ≤ Z.to_nat num_iter)%nat →
     Forall in_unit
       (st_images
          (attack_state images labels epsilon num_iter mu use_epsilon k)))
  ∧ ∃ adv w',
      sdmiae_attack images labels epsilon num_iter mu use_epsilon w
      = (Returns adv, w')
      ∧ Forall in_unit adv.
Proof.
  intros Hn.
  assert (Hk : ∀ k, (1 ≤ k)%nat →
    Forall in_unit
      (st_images
         (attack_state images labels epsilon num_iter mu use_epsilon k))).
  { intros [|k] Hk; [lia|]. rewrite attack_state_succ.
    apply attack_update_unit. }
  split; [intros k [Hk1 _]; by apply Hk|].
  eexists _, _. split; [apply sdmiae_attack_returns; lia|].
  apply Hk. lia.
Qed.

(** C1: with [use_epsilon=True], an input with pixels in [0,1],
    [epsilon >= 0] and [num_iter >= 1], the image after each iteration and
    the returned image differ from the original input, the snapshot taken
    at the start, by at most [epsilon] in every component. *)
Theorem epsilon_ball_invariant `{Classifier label} (images : tensor)
    (labels : label) (epsilon : Q) (num_iter : Z) (mu : Q) (w : World) :
  Forall in_unit images → 0 <= epsilon → (1 <= num_iter)%Z →
  (∀ k, (1 ≤ k ≤ Z.to_nat num_iter)%nat →
     Forall2 (within epsilon)
       (st_images (attack_state images labels epsilon num_iter mu true k))
       images)
  ∧ ∃ adv w',
      sdmiae_attack images labels epsilon num_iter mu true w
      = (Returns adv, w')
      ∧ Forall2 (within epsilon) adv images.
Proof.
  intros Hunit He Hn.
  assert (Hk : ∀ k, (1 ≤ k)%nat →
    Forall2 (within epsilon)
      (st_images (attack_state images labels epsilon num_iter mu true k))
      images).
  { intros [|k] Hk; [lia|]. rewrite attack_state_succ.
    apply attack_update_within; try assumption; try reflexivity.
    - apply attack_state_gradient_shape.
    - apply attack_state_shaped. }
  split; [intros k [Hk1 _]; by apply Hk|].
  eexists _, _. split; [apply sdmiae_attack_returns; lia|].
  apply Hk. lia.
Qed.

(** C7: with [epsilon = 0], [use_epsilon=True], an input with pixels in
    [0,1] and [num_iter >= 1], the image after every iteration and the
    returned image are equal to the original input, whatever [mu], the
    label and the classifier are. *)
Theorem zero_epsilon_fixes_image `{Classifier label} (images : tensor)
    (labels : label) (epsilon : Q) (num_iter : Z) (mu : Q) (w : World) :
  epsilon == 0 → Forall in_unit images → (1 <= num_iter)%Z →
  (∀ k, (k ≤ Z.to_nat num_iter)%nat →
     Forall2 Qeq
       (st_images (attack_state images labels epsilon num_iter mu true k))
       images)
  ∧ ∃ adv w',
      sdmiae_attack images labels epsilon num_iter mu true w
      = (Returns adv, w')
      ∧ Forall2 Qeq adv images.
Proof.
  intros He Hunit Hn.
  assert (Hk : ∀ k,
    Forall2 Qeq
      (st_images (attack_state images labels epsilon num_iter mu true k))
      images).
  { intros [|k].
    - rewrite attack_state_zero. cbn [st_images].
      apply Forall2_same_length_lookup_2; [reflexivity|].
      intros i x y Hx Hy. rewrite Hx in Hy. by injection Hy as ->.
    - rewrite attack_state_succ.
      apply attack_update_zero_ball; try assumption; try reflexivity.
      + apply attack_state_gradient_shape.
      + apply attack_state_shaped. }
  split; [intros k _; apply Hk|].
  eexists _, _. split; [apply sdmiae_attack_returns; lia|].
  apply Hk.
Qed.

(** C10: with [num_iter = 0] the attack raises [ZeroDivisionError] at the
    computation of [alpha] and leaves the world as it found it (no
    classifier call); with [num_iter >= 1] the division succeeds and the
    attack returns; and the denominator of the gradient normalization is
    strictly positive for every gradient. *)
Theorem division_by_zero_only_at_alpha `{Classifier label} (images : tensor)
    (labels : label) (epsilon : Q) (mu : Q) (use_epsilon : bool)
    (w : World) :
  sdmiae_attack images labels epsilon 0 mu use_epsilon w
  = (Raises ZeroDivisionError, w)
  ∧ (∀ num_iter, (1 <= num_iter)%Z →
       py_truediv epsilon num_iter w
       = (Returns (epsilon / inject_Z num_iter), w)
       ∧ ∃ adv w',
           sdmiae_attack images labels epsilon num_iter mu use_epsilon w
           = (Returns adv, w'))
  ∧ (∀ gradient, 0 < norm_p1 gradient + 1e-10).
Proof.
  split; [reflexivity|]. split; [|apply normalize_denominator].
  intros num_iter Hn. split.
  - unfold py_truediv. destruct (Z.eqb_spec num_iter 0); [lia|reflexivity].
  - eexists _, _. apply sdmiae_attack_returns. lia.
Qed.

(** C6: with [num_iter=1], [mu=0], [epsilon=0.03], [use_epsilon=True], a
    uniform image of pixels 0.5 and a classifier whose loss gradient on it
    is positive in every component, every pixel of the returned image is
    0.53. *)
Theorem uniform_gray_scenario `{Classifier label} (n : nat)
    (labels : label) (w : World) :
  Forall (λ g, 0 < g) (loss_grad (replicate n 0.5) labels) →
  ∃ adv w',
    sdmiae_attack (replicate n 0.5) labels 0.03 1 0 true w
    = (Returns adv, w')
    ∧ length adv = n
    ∧ Forall (λ v, v == 0.53) adv.
Proof.
  intros Hpos. eexists _, _.
  split; [apply sdmiae_attack_returns; lia|].
  change (Z.to_nat 1) with 1%nat. rewrite attack_state_succ.
  pose proof (attack_state_shaped (replicate n 0.5) labels 0.03 1 0 true 1)
    as [Hlen _].
  rewrite attack_state_succ, length_replicate in Hlen.
  split; [exact Hlen|].
  apply Forall_lookup_2. intros i v Hv.
  destruct (attack_update_images _ _ _ _ _ _ _ _ _ Hv)
    as (x & m & g & Hx & Hm & Hg & Hsome & Hval).
  destruct (Hsome eq_refl) as [o Ho].
  rewrite (Hval o (λ _, Ho)). clear Hval Hv Hsome.
  rewrite attack_state_zero in Hx, Hm. cbn [st_images st_momentum] in Hx, Hm.
  apply lookup_replicate in Ho as [-> _].
  apply lookup_replicate in Hx as [-> _].
  unfold zeros_like in Hm. rewrite list_lookup_fmap in Hm.
  destruct (replicate n 0.5 !! i); simplify_eq/=.
  pose proof (Forall_lookup_1 _ _ _ _ Hpos Hg) as Hgpos. cbv beta in Hgpos.
  pose proof (normalize_denominator (loss_grad (replicate n 0.5) labels))
    as Hden.
  revert Hden.
  generalize (norm_p1 (loss_grad (replicate n 0.5) labels) + 1e-10).
  intros d Hden.
  assert (Hm' : 0 < momentum_entry 0 0 (g / d)).
  { unfold momentum_entry. apply Qinv_lt_0_compat in Hden.
    pose proof (Qmult_lt_0_compat _ _ Hgpos Hden) as Hr.
    unfold Qdiv. revert Hr. generalize (g * / d). intros r Hr. lra. }
  unfold pixel_entry, clamp_entry.
  destruct (sign_entry_cases (momentum_entry 0 0 (g / d)))
    as [[Hs _]|[[Hs _]|[_ ->]]]; [lra|lra|].
  change (0.03 / inject_Z 1) with (3 # 100).
  q_abstract. lra.
Qed.

(** ** The guidance combination *)

Lemma guidance_lookup (U C : tensor) (g : Q) i u c :
  U !! i = Some u → C !! i = Some c →
  guidance U C g !! i = Some (u + g * (c - u)).
Proof.
  intros Hu Hc. unfold guidance, t_add, scalar_mul, t_sub.
  by rewrite lookup_zip_with, list_lookup_fmap, lookup_zip_with, Hu, Hc.
Qed.

Lemma guidance_length (U C : tensor) (g : Q) :
  length U = length C → length (guidance U C g) = length U.
Proof.
  intros Hlen. unfold guidance, t_add, scalar_mul, t_sub.
  rewrite length_zip_with, length_fmap, length_zip_with. lia.
Qed.

(** ** Tensor objects and the sampler *)

Lemma bind_returns {A B : Type} (c : py A) (k : A → py B) w a w' :
  c w = (Returns a, w') → (c ≫= k) w = k a w'.
Proof. intros Hc. unfold mbind, py_bind. by rewrite Hc. Qed.

Lemma evolves_refl w : evolves w w [].
Proof. split; [done|]. split; [done|]. by rewrite app_nil_r. Qed.

Lemma evolves_trans w1 w2 w3 s1 s2 :
  evolves w1 w2 s1 → evolves w2 w3 s2 → evolves w1 w3 (s1 ++ s2).
Proof.
  intros (Hh1 & Hr1 & Hs1) (Hh2 & Hr2 & Hs2). split; [by etrans|].
  split; [congruence|]. by rewrite Hs2, Hs1, app_assoc.
Qed.

(** An object that exists keeps its value. *)
Lemma evolves_lookup w w' s (l : loc) :
  evolves w w' s → (l < length (heap w))%nat →
  (l < length (heap w'))%nat ∧ heap w' !!! l = heap w !!! l.
Proof.
  intros ([vs Hvs] & _) Hl. rewrite Hvs. split.
  - rewrite length_app. lia.
  - by apply lookup_total_app_l.
Qed.

Lemma alloc_evolves v w :
  ∃ w', alloc v w = (Returns (length (heap w)), w') ∧ evolves w w' [].
Proof.
  eexists. split; [reflexivity|]. split; [by apply prefix_app_r|].
  split; [done|]. simpl. by rewrite app_nil_r.
Qed.

Lemma record_calls_evolves w qs : evolves w (record_calls w qs) [].
Proof. split; [done|]. split; [done|]. simpl. by rewrite app_nil_r. Qed.

Section SamplerFacts.
Context `{Pipeline}.
Variables (all_embeddings : tensor) (guidance_scale eta : Q).

Lemma denoise_evolves t (latents : loc) w :
  ∃ latents' w',
    denoise all_embeddings guidance_scale eta t latents w
    = (Returns latents', w')
    ∧ evolves w w' [].
Proof.
  set (x := heap w !!! latents).
  set (noise_pred := unet (scale_model_input (cat2 x) t) t all_embeddings).
  destruct (alloc_evolves
    (scheduler_step
       (guidance (chunk2 noise_pred).1 (chunk2 noise_pred).2
          guidance_scale) t x eta) w) as (w' & Hrun & Hev).
  exists (length (heap w)), w'. split; [exact Hrun|exact Hev].
Qed.

Lemma for_in_denoise_evolves ts (latents : loc) w :
  ∃ latents' w',
    for_in ts (denoise all_embeddings guidance_scale eta) latents w
    = (Returns latents', w')
    ∧ evolves w w' [].
Proof.
  revert latents w. induction ts as [|t ts IH]; intros latents w.
  - eexists _, _. split; [reflexivity|apply evolves_refl].
  - destruct (denoise_evolves t latents w) as (l1 & w1 & Hrun1 & Hev1).
    destruct (IH l1 w1) as (l2 & w2 & Hrun2 & Hev2).
    exists l2, w2. split.
    + cbn [for_in]. unfold mbind, py_bind. by rewrite Hrun1.
    + apply (evolves_trans _ _ _ [] [] Hev1 Hev2).
Qed.

(** The sampler returns, records the latent it was given, and leaves
    every tensor object that existed as it was. *)
Lemma forward_diffusion_evolves (latents : loc) steps w :
  ∃ image w',
    forward_diffusion all_embeddings guidance_scale eta latents steps w
    = (Returns image, w')
    ∧ evolves w w' [(latents, heap w !!! latents)].
Proof.
  unfold forward_diffusion.
  set (w0 := (observe_latents latents w).2).
  assert (Hev0 : evolves w w0 [(latents, heap w !!! latents)])
    by (split; [done|]; split; done).
  destruct (for_in_denoise_evolves (scheduler_timesteps steps) latents w0)
    as (l1 & w1 & Hrun1 & Hev1).
  rewrite (bind_returns (observe_latents latents) _ w () w0 eq_refl).
  rewrite (bind_returns _ _ w0 l1 w1 Hrun1).
  rewrite (bind_returns (load l1) _ w1 (heap w1 !!! l1) w1 eq_refl).
  destruct (alloc_evolves (div_scalar (heap w1 !!! l1) vae_scaling_factor)
              w1) as (w2 & Hrun2 & Hev2).
  rewrite (bind_returns _ _ w1 _ w2 Hrun2).
  rewrite (bind_returns (load (length (heap w1))) _ w2
             (heap w2 !!! length (heap w1)) w2 eq_refl).
  eexists _, _. split; [reflexivity|].
  apply (evolves_trans _ _ _ _ [] Hev0).
  apply (evolves_trans _ _ _ [] [] Hev1 Hev2).
Qed.
End SamplerFacts.

(** ** The orchestrator *)

Section OrchestratorFacts.
Context `{Pipeline} `{Classifier Z}.
Variables (args : Args) (label : string) (class_id : Z).
Variables (latents : loc) (all_embeddings : tensor).

Lemma sample_evolves j w :
  ∃ w',
    sample args label class_id latents all_embeddings j () w
    = (Returns (), w')
    ∧ evolves w w' [(latents, heap w !!! latents)].
Proof.
  unfold sample.
  destruct (forward_diffusion_evolves all_embeddings
              (arg_guidance_scale args) 0 latents
              (num_inference_steps args) w) as (image & w1 & Hrun1 & Hev1).
  rewrite (bind_returns _ _ w image w1 Hrun1).
  rewrite (bind_returns _ _ w1 _ _
             (sdmiae_attack_returns image class_id (arg_epsilon args) 30
                (arg_mu args) true w1 ltac:(lia))).
  eexists. split; [reflexivity|].
  apply (evolves_trans _ _ _ _ [] Hev1).
  split; [done|]. split; [done|]. simpl. by rewrite app_nil_r.
Qed.

Lemma for_in_sample_evolves js w :
  (latents < length (heap w))%nat →
  ∃ w',
    for_in js (sample args label class_id latents all_embeddings) () w
    = (Returns (), w')
    ∧ evolves w w' (replicate (length js) (latents, heap w !!! latents)).
Proof.
  revert w. induction js as [|j js IH]; intros w Hl.
  - eexists. split; [reflexivity|apply evolves_refl].
  - destruct (sample_evolves j w) as (w1 & Hrun1 & Hev1).
    destruct (evolves_lookup _ _ _ _ Hev1 Hl) as [Hl1 Hv1].
    destruct (IH w1 Hl1) as (w2 & Hrun2 & Hev2).
    exists w2. split.
    + cbn [for_in]. by rewrite (bind_returns _ _ w () w1 Hrun1).
    + rewrite Hv1 in Hev2.
      apply (evolves_trans _ _ _ [_] _ Hev1 Hev2).
Qed.
End OrchestratorFacts.

(** C9: [forward_diffusion] returns and leaves every tensor object that
    existed before the call, the one behind its [latents] argument among
    them, with the value it had; so the loop over the samples of a class
    hands the sampler the same latent values for every sample, and does
    not consume the random generator. *)
Theorem latents_not_written `{Pipeline} `{Classifier Z} (args : Args)
    (label : string) (class_id : Z) (latents : loc)
    (all_embeddings : tensor) (guidance_scale eta : Q) (steps : Z)
    (w : World) :
  (latents < length (heap w))%nat →
  (∃ image w',
     forward_diffusion all_embeddings guidance_scale eta latents steps w
     = (Returns image, w')
     ∧ heap w' !! latents = heap w !! latents
     ∧ ∀ l v, heap w !! l = Some v → heap w' !! l = Some v)
  ∧ ∃ w',
      sample_loop args label class_id latents all_embeddings w
      = (Returns (), w')
      ∧ sampler_inputs w'
        = sampler_inputs w
          ++ replicate (Z.to_nat (num_samples_per_class args))
               (latents, heap w !!! latents)
      ∧ heap w' !! latents = heap w !! latents
      ∧ rng w' = rng w.
Proof.
  intros Hl.
  assert (Hkeep : ∀ w' s, evolves w w' s →
            ∀ l v, heap w !! l = Some v → heap w' !! l = Some v).
  { intros w' s (Hpre & _) l v Hv. by eapply prefix_lookup_Some. }
  assert (Hsame : ∀ w' s, evolves w w' s →
            heap w' !! latents = heap w !! latents).
  { intros w' s Hev.
    destruct (lookup_lt_is_Some_2 _ _ Hl) as [v Hv].
    by rewrite Hv, (Hkeep w' s Hev latents v Hv). }
  split.
  - destruct (forward_diffusion_evolves all_embeddings guidance_scale eta
                latents steps w) as (image & w' & Hrun & Hev).
    exists image, w'. split; [exact Hrun|]. split.
    + exact (Hsame w' _ Hev).
    + exact (Hkeep w' _ Hev).
  - destruct (for_in_sample_evolves args label class_id latents
                all_embeddings (range (num_samples_per_class args)) w Hl)
      as (w' & Hrun & Hev).
    exists w'. split; [exact Hrun|].
    unfold range in Hev. rewrite length_seqZ in Hev.
    split; [apply Hev|]. split; [|apply Hev].
    exact (Hsame w' _ Hev).
Qed.

(** ** The claims at concrete inputs *)

Lemma gray_pair_unit : Forall in_unit [0.5; 0.25].
Proof. repeat (apply Forall_cons; split; [unfold in_unit; lra|]). done. Qed.

Lemma pixel_range_invariant_witness :
  (1 <= 2)%Z
  ∧ ∃ adv w',
      sdmiae_attack (H:=rising_classifier) [0.5; 0.25] 0%Z 0.03 2 0.5 false
        empty_world
      = (Returns adv, w')
      ∧ Forall in_unit adv.
Proof.
  assert (Hn : (1 <= 2)%Z) by lia.
  split; [exact Hn|].
  exact (proj2 (pixel_range_invariant (H:=rising_classifier) [0.5; 0.25]
                  0%Z 0.03 2 0.5 false empty_world Hn)).
Defined.

Lemma epsilon_ball_invariant_witness :
  Forall in_unit [0.5; 0.25] ∧ 0 <= 0.03 ∧ (1 <= 2)%Z
  ∧ ∃ adv w',
      sdmiae_attack (H:=rising_classifier) [0.5; 0.25] 0%Z 0.03 2 0.5 true
        empty_world
      = (Returns adv, w')
      ∧ Forall2 (within 0.03) adv [0.5; 0.25].
Proof.
  assert (He : 0 <= 0.03) by lra.
  assert (Hn : (1 <= 2)%Z) by lia.
  split; [exact gray_pair_unit|]. split; [exact He|]. split; [exact Hn|].
  exact (proj2 (epsilon_ball_invariant (H:=rising_classifier) [0.5; 0.25]
                  0%Z 0.03 2 0.5 empty_world gray_pair_unit He Hn)).
Defined.

Lemma zero_epsilon_fixes_image_witness :
  0 == 0 ∧ Forall in_unit [0.5; 0.25] ∧ (1 <= 2)%Z
  ∧ ∃ adv w',
      sdmiae_attack (H:=rising_classifier) [0.5; 0.25] 0%Z 0 2 0.5 true
        empty_world
      = (Returns adv, w')
      ∧ Forall2 Qeq adv [0.5; 0.25].
Proof.
  assert (He : 0 == 0) by reflexivity.
  assert (Hn : (1 <= 2)%Z) by lia.
  split; [exact He|]. split; [exact gray_pair_unit|]. split; [exact Hn|].
  exact (proj2 (zero_epsilon_fixes_image (H:=rising_classifier) [0.5; 0.25]
                  0%Z 0 2 0.5 empty_world He gray_pair_unit Hn)).
Defined.

Lemma division_by_zero_only_at_alpha_witness :
  (1 <= 3)%Z
  ∧ ∃ adv w',
      sdmiae_attack (H:=rising_classifier) [0.5; 0.25] 0%Z 0.03 3 0.5 true
        empty_world
      = (Returns adv, w').
Proof.
  assert (Hn : (1 <= 3)%Z) by lia.
  split; [exact Hn|].
  exact (proj2 (proj1 (proj2 (division_by_zero_only_at_alpha
                                (H:=rising_classifier) [0.5; 0.25] 0%Z 0.03
                                0.5 true empty_world)) 3%Z Hn)).
Defined.

Lemma rising_gradient_positive :
  Forall (λ g, 0 < g)
    (loss_grad (Classifier:=rising_classifier) (replicate 3 0.5) 0%Z).
Proof. repeat (apply Forall_cons; split; [lra|]). done. Qed.

Lemma uniform_gray_scenario_witness :
  ∃ adv w',
    sdmiae_attack (H:=rising_classifier) (replicate 3 0.5) 0%Z 0.03 1 0 true
      empty_world
    = (Returns adv, w')
    ∧ length adv = 3%nat
    ∧ Forall (λ v, v == 0.53) adv.
Proof.
  exact (uniform_gray_scenario (H:=rising_classifier) 3 0%Z empty_world
           rising_gradient_positive).
Defined.

Lemma latents_not_written_witness :
  let w := mkWorld [replicate 4 0.25] 0 [] [] [] in
  (0 < length (heap w))%nat
  ∧ ∃ w',
      sample_loop (H:=small_pipeline) (H1:=rising_classifier) two_samples
        "tench" 0%Z 0%nat [0; 5] w
      = (Returns (), w')
      ∧ sampler_inputs w'
        = sampler_inputs w
          ++ replicate (Z.to_nat (num_samples_per_class two_samples))
               (0%nat, heap w !!! 0%nat)
      ∧ heap w' !! 0%nat = heap w !! 0%nat
      ∧ rng w' = rng w.
Proof.
  intros w.
  assert (Hl : (0 < length (heap w))%nat) by (vm_compute; lia).
  split; [exact Hl|].
  exact (proj2 (latents_not_written (H:=small_pipeline)
                  (H0:=rising_classifier) two_samples "tench" 0%Z 0%nat
                  [0; 5] 9.5 0 2%Z w Hl)).
Defined.

(** * Further properties *)

(** ** More on one update *)

Section UpdateEntries.
Variables (epsilon alpha mu : Q) (use_epsilon : bool).
Variables (original_images gradient : tensor) (st : AdvState).

Let st' :=
  attack_update epsilon alpha mu use_epsilon original_images gradient st.

Lemma attack_update_entry i o x m g :
  original_images !! i = Some o → st_images st !! i = Some x →
  st_momentum st !! i = Some m → gradient !! i = Some g →
  st_momentum st' !! i
  = Some (momentum_entry mu m (g / (norm_p1 gradient + 1e-10)))
  ∧ st_images st' !! i
    = Some (pixel_entry epsilon alpha use_epsilon o x
              (momentum_entry mu m (g / (norm_p1 gradient + 1e-10)))).
Proof.
  intros Ho Hx Hm Hg. subst st'. unfold attack_update.
  cbn [st_images st_momentum].
  unfold normalize, torch_clamp, torch_max, torch_min, t_add, scalar_mul,
    torch_sign, add_scalar, sub_scalar, div_scalar.
  split.
  - rewrite lookup_zip_with, !list_lookup_fmap, Hm, Hg. done.
  - destruct use_epsilon;
      rewrite ?list_lookup_fmap, ?lookup_zip_with, ?list_lookup_fmap,
        ?lookup_zip_with, ?list_lookup_fmap, ?lookup_zip_with,
        ?list_lookup_fmap, Hx, ?Ho, Hm, Hg; done.
Qed.

Lemma attack_update_momentum i v :
  st_momentum st' !! i = Some v →
  ∃ m g, st_momentum st !! i = Some m ∧ gradient !! i = Some g
    ∧ v = momentum_entry mu m (g / (norm_p1 gradient + 1e-10)).
Proof.
  subst st'. unfold attack_update. cbn [st_momentum].
  unfold normalize, t_add, scalar_mul, div_scalar.
  rewrite lookup_zip_with, !list_lookup_fmap.
  destruct (st_momentum st !! i) as [m|]; simpl; try done.
  destruct (gradient !! i) as [g|]; simpl; try done.
  intros [= <-]. by exists m, g.
Qed.
End UpdateEntries.

(** The entries of a state of the attack, given those of the input. *)
Lemma attack_state_entries `{Classifier label} (images : tensor)
    (labels : label) epsilon num_iter mu use_epsilon k i o :
  images !! i = Some o →
  ∃ x m g,
    st_images (attack_state images labels epsilon num_iter mu use_epsilon k)
      !! i = Some x
    ∧ st_momentum
        (attack_state images labels epsilon num_iter mu use_epsilon k)
        !! i = Some m
    ∧ loss_grad
        (st_images
           (attack_state images labels epsilon num_iter mu use_epsilon k))
        labels !! i = Some g.
Proof.
  intros Ho. apply lookup_lt_Some in Ho.
  pose proof (attack_state_shaped images labels epsilon num_iter mu
                use_epsilon k) as [Hx Hm].
  pose proof (attack_state_gradient_shape images labels epsilon num_iter mu
                use_epsilon k) as Hg.
  destruct (lookup_lt_is_Some_2 _ i (eq_ind_r (λ n, (i < n)%nat) Ho Hx))
    as [x Hxi].
  destruct (lookup_lt_is_Some_2 _ i (eq_ind_r (λ n, (i < n)%nat) Ho Hm))
    as [m Hmi].
  destruct (lookup_lt_is_Some_2 _ i (eq_ind_r (λ n, (i < n)%nat) Ho Hg))
    as [g Hgi].
  by exists x, m, g.
Qed.

(** ** The attack and the world *)

(** X1: for a non-zero [num_iter] the attack returns an image of the
    shape of its input, evaluates the classifier exactly [num_iter] times
    (not at all when [num_iter] is negative), the first time on the input
    as it was given, and changes nothing else. *)
Theorem attack_calls_classifier_num_iter_times `{Classifier label}
    (images : tensor) (labels : label) (epsilon : Q) (num_iter : Z)
    (mu : Q) (use_epsilon : bool) (w : World) :
  num_iter ≠ 0%Z →
  ∃ adv queries w',
    sdmiae_attack images labels epsilon num_iter mu use_epsilon w
    = (Returns adv, w')
    ∧ length adv = length images
    ∧ clf_calls w' = clf_calls w ++ queries
    ∧ length queries = Z.to_nat num_iter
    ∧ ((1 <= num_iter)%Z → queries !! 0%nat = Some images)
    ∧ heap w' = heap w ∧ rng w' = rng w
    ∧ sampler_inputs w' = sampler_inputs w ∧ files w' = files w.
Proof.
  intros Hn. eexists _, _, _.
  split; [by apply sdmiae_attack_returns|].
  split; [apply attack_state_shaped|].
  split; [reflexivity|].
  split; [by rewrite length_fmap, length_seq|].
  split; [|done].
  intros Hpos. destruct (Z.to_nat num_iter) as [|n] eqn:En; [lia|].
  reflexivity.
Qed.

(** X2: a negative [num_iter] is accepted: the attack returns the input
    itself and leaves the world as it was. *)
Theorem attack_negative_num_iter `{Classifier label} (images : tensor)
    (labels : label) (epsilon : Q) (num_iter : Z) (mu : Q)
    (use_epsilon : bool) (w : World) :
  (num_iter < 0)%Z →
  sdmiae_attack images labels epsilon num_iter mu use_epsilon w
  = (Returns images, w).
Proof.
  intros Hn. rewrite sdmiae_attack_returns by lia.
  replace (Z.to_nat num_iter) with 0%nat by lia.
  cbn [seq fmap list_fmap]. by rewrite record_calls_nil.
Qed.

(** ** Inputs outside [0,1] *)

Lemma pixel_entry_above epsilon alpha o x m :
  1 + epsilon <= o → pixel_entry epsilon alpha true o x m == 1.
Proof.
  unfold pixel_entry, clamp_entry. intros.
  generalize (x + alpha * sign_entry m). intros y. q_abstract. lra.
Qed.

Lemma pixel_entry_below epsilon alpha o x m :
  0 <= epsilon → o + epsilon <= 0 →
  pixel_entry epsilon alpha true o x m == 0.
Proof.
  unfold pixel_entry, clamp_entry. intros.
  generalize (x + alpha * sign_entry m). intros y. q_abstract. lra.
Qed.

(** X3: with [use_epsilon=True] the [0,1] clamp has the last word.  A
    pixel of the input at or above [1 + epsilon] is 1 after every
    iteration and in the returned image, and a pixel at or below
    [- epsilon] (for [epsilon >= 0]) is 0: for such a pixel the result is
    not within [epsilon] of the input. *)
Theorem clamp_overrides_epsilon_ball `{Classifier label} (images : tensor)
    (labels : label) (epsilon : Q) (num_iter : Z) (mu : Q) (w : World)
    (i : nat) (o : Q) :
  images !! i = Some o → (1 <= num_iter)%Z →
  ∃ adv w' v,
    sdmiae_attack images labels epsilon num_iter mu true w
    = (Returns adv, w')
    ∧ adv !! i = Some v
    ∧ (1 + epsilon <= o → v == 1)
    ∧ (0 <= epsilon → o + epsilon <= 0 → v == 0).
Proof.
  intros Ho Hn.
  destruct (Z.to_nat num_iter) as [|k] eqn:Ek; [lia|].
  destruct (attack_state_entries images labels epsilon num_iter mu true k
              i o Ho) as (x & m & g & Hx & Hm & Hg).
  destruct (attack_update_entry epsilon (epsilon / inject_Z num_iter) mu
              true images _ _ i o x m g Ho Hx Hm Hg) as [_ Hv].
  eexists _, _, _. split; [apply sdmiae_attack_returns; lia|].
  rewrite Ek, attack_state_succ. split; [exact Hv|]. split.
  - apply pixel_entry_above.
  - apply pixel_entry_below.
Qed.

(** ** Classifiers with a vanishing gradient *)

Lemma sign_entry_zero v : v == 0 → sign_entry v = 0.
Proof.
  intros Hv. destruct (sign_entry_cases v) as [[Hs _]|[[_ Hs]|[Hs _]]];
    [lra|exact Hs|lra].
Qed.

Lemma momentum_entry_zero mu m g d :
  m == 0 → g == 0 → momentum_entry mu m (g / d) == 0.
Proof.
  intros Hm Hg. unfold momentum_entry, Qdiv. rewrite Hm, Hg. ring.
Qed.

Lemma pixel_entry_still epsilon alpha use_epsilon o x m :
  (use_epsilon = true → 0 <= epsilon) → in_unit o → x == o → m == 0 →
  pixel_entry epsilon alpha use_epsilon o x m == o.
Proof.
  intros He Ho Hx Hm. unfold in_unit, pixel_entry, clamp_entry in *.
  rewrite (sign_entry_zero m Hm).
  destruct use_epsilon; [specialize (He eq_refl)|]; q_abstract; lra.
Qed.

(** X5: where the loss gradient vanishes (here: everywhere) the attack
    does not move an image with pixels in [0,1], whatever [mu] and
    [num_iter >= 1] are; with [use_epsilon=True] this needs
    [epsilon >= 0]. *)
Theorem zero_gradient_leaves_image `{Classifier label} (images : tensor)
    (labels : label) (epsilon : Q) (num_iter : Z) (mu : Q)
    (use_epsilon : bool) (w : World) :
  (∀ x, Forall (λ g, g == 0) (loss_grad x labels)) →
  Forall in_unit images → (use_epsilon = true → 0 <= epsilon) →
  (1 <= num_iter)%Z →
  ∃ adv w',
    sdmiae_attack images labels epsilon num_iter mu use_epsilon w
    = (Returns adv, w')
    ∧ Forall2 Qeq adv images.
Proof.
  intros Hflat Hunit He Hn.
  eexists _, _. split; [apply sdmiae_attack_returns; lia|].
  generalize (Z.to_nat num_iter). intros k.
  cut (Forall2 Qeq
         (st_images
            (attack_state images labels epsilon num_iter mu use_epsilon k))
         images
       ∧ Forall (λ m, m == 0)
           (st_momentum
              (attack_state images labels epsilon num_iter mu use_epsilon
                 k))); [by intros [? _]|].
  induction k as [|k [IHx IHm]].
  - rewrite attack_state_zero. cbn [st_images st_momentum]. split.
    + apply Forall2_same_length_lookup_2; [reflexivity|].
      intros i x y Hx Hy. rewrite Hx in Hy. by injection Hy as ->.
    + unfold zeros_like. apply Forall_fmap, Forall_true. done.
  - rewrite attack_state_succ.
    pose proof (attack_state_gradient_shape images labels epsilon num_iter
                  mu use_epsilon k) as Hg.
    pose proof (attack_state_shaped images labels epsilon num_iter mu
                  use_epsilon k) as Hst.
    split.
    + apply Forall2_same_length_lookup_2.
      { by apply (attack_update_shaped _ _ _ _ images _ _ _ eq_refl Hg). }
      intros i v o Hv Ho.
      destruct (attack_update_images _ _ _ _ _ _ _ _ _ Hv)
        as (x & m & g & Hx & Hm & Hgi & _ & Hval).
      rewrite (Hval o (λ _, Ho)).
      apply pixel_entry_still; [exact He| | |].
      * exact (Forall_lookup_1 _ _ _ _ Hunit Ho).
      * exact (Forall2_lookup_lr _ _ _ _ _ _ IHx Hx Ho).
      * apply momentum_entry_zero.
        -- exact (Forall_lookup_1 _ _ _ _ IHm Hm).
        -- exact (Forall_lookup_1 _ _ _ _ (Hflat _) Hgi).
    + apply Forall_lookup_2. intros i v Hv.
      destruct (attack_update_momentum _ _ _ _ _ _ _ _ _ Hv)
        as (m & g & Hm & Hgi & ->).
      apply momentum_entry_zero.
      * exact (Forall_lookup_1 _ _ _ _ IHm Hm).
      * exact (Forall_lookup_1 _ _ _ _ (Hflat _) Hgi).
Qed.

(** ** The guidance and the batch of two *)

(** X7: where the conditional and the unconditional prediction agree,
    the guidance scale has no effect: the combination is that
    prediction. *)
Theorem guidance_of_agreeing_predictions (U C : tensor) (g : Q) :
  Forall2 Qeq U C → Forall2 Qeq (guidance U C g) U.
Proof.
  intros HUC. pose proof (Forall2_length _ _ _ HUC) as Hlen.
  apply Forall2_same_length_lookup_2; [by apply guidance_length|].
  intros i v u Hv Hu.
  destruct (lookup_lt_is_Some_2 C i) as [c Hc].
  { rewrite <- Hlen. by eapply lookup_lt_Some. }
  rewrite (guidance_lookup U C g i u c Hu Hc) in Hv. injection Hv as <-.
  rewrite (Forall2_lookup_lr _ _ _ _ _ _ HUC Hu Hc). ring.
Qed.

(** X8: splitting a batch of two tensors of one shape gives the two back;
    in particular the split of the doubled latent of line 100 is the
    latent twice. *)
Theorem chunk2_of_pair (u c : tensor) :
  length u = length c →
  chunk2 (u ++ c) = (u, c) ∧ chunk2 (cat2 u) = (u, u).
Proof.
  intros Hlen.
  assert (Hhalf : ∀ a b : tensor, length a = length b →
            chunk2 (a ++ b) = (a, b)).
  { intros a b Hab. unfold chunk2. rewrite length_app, <- Hab.
    replace (length a + length a)%nat with (2 * length a)%nat by lia.
    rewrite Nat.div2_succ_double.
    by rewrite take_app_length, drop_app_length. }
  split; [by apply Hhalf|]. by apply Hhalf.
Qed.

(** ** The orchestrator, class by class *)

Lemma bind_raises {A B : Type} (c : py A) (k : A → py B) w e w' :
  c w = (Raises e, w') → (c ≫= k) w = (Raises e, w').
Proof. intros Hc. unfold mbind, py_bind. by rewrite Hc. Qed.

Lemma getitem_Some `{Countable K} {V : Type} (d : gmap K V) k v w :
  d !! k = Some v → getitem d k w = (Returns v, w).
Proof. intros Hk. unfold getitem. by rewrite Hk. Qed.

Lemma getitem_None `{Countable K} {V : Type} (d : gmap K V) k w :
  d !! k = None → getitem d k w = (Raises KeyError, w).
Proof. intros Hk. unfold getitem. by rewrite Hk. Qed.

Lemma subscript_Some {V : Type} (l : list V) i v w :
  l !! i = Some v → subscript l i w = (Returns v, w).
Proof. intros Hi. unfold subscript. by rewrite Hi. Qed.

Lemma subscript_None {V : Type} (l : list V) i w :
  l !! i = None → subscript l i w = (Raises IndexError, w).
Proof. intros Hi. unfold subscript. by rewrite Hi. Qed.

Section Classes.
Context `{Pipeline} `{Generator} `{Classifier Z}.
Variables (in100_class_index : ClassIndex) (args : Args).

Lemma class_body_unknown i w :
  by_index in100_class_index !! i = None →
  class_body in100_class_index args i () w = (Raises KeyError, w).
Proof.
  intros Hi. unfold class_body.
  by rewrite (bind_raises _ _ w KeyError w (getitem_None _ _ _ Hi)).
Qed.
End Classes.

(** ** The orchestrator *)

Section Main.
Context `{Pipeline} `{Generator} `{Classifier Z}.
Variables (in100_class_index : ClassIndex) (args : Args).

Lemma main_run lo hi w :
  class_ids args !! 0%nat = Some lo → class_ids args !! 1%nat = Some hi →
  main in100_class_index args w
  = for_in (range2 lo (hi + 1)) (class_body in100_class_index args) () w.
Proof.
  intros Hlo Hhi. unfold main.
  rewrite (bind_returns _ _ w lo w (subscript_Some _ _ _ _ Hlo)).
  by rewrite (bind_returns _ _ w hi w (subscript_Some _ _ _ _ Hhi)).
Qed.

(** X10: [main] reads [class_ids[0]] and [class_ids[1]]; with fewer than
    two class ids it raises [IndexError] before anything is drawn,
    sampled or written. *)
Theorem main_needs_two_class_ids (w : World) :
  (length (class_ids args) < 2)%nat →
  main in100_class_index args w = (Raises IndexError, w).
Proof.
  intros Hlen. unfold main.
  assert (Hhi : class_ids args !! 1%nat = None)
    by (apply lookup_ge_None_2; lia).
  destruct (class_ids args !! 0%nat) as [lo|] eqn:Hlo.
  - rewrite (bind_returns _ _ w lo w (subscript_Some _ _ _ _ Hlo)).
    by rewrite (bind_raises _ _ w IndexError w (subscript_None _ _ _ Hhi)).
  - by rewrite (bind_raises _ _ w IndexError w (subscript_None _ _ _ Hlo)).
Qed.

(** X11: only the first two class ids are read, as the bounds of an
    inclusive range; when the second is below the first, [main] returns
    and has done nothing. *)
Theorem main_empty_range (lo hi : Z) (w : World) :
  class_ids args !! 0%nat = Some lo → class_ids args !! 1%nat = Some hi →
  (hi < lo)%Z →
  main in100_class_index args w = (Returns (), w).
Proof.
  intros Hlo Hhi Hlt. rewrite (main_run lo hi w Hlo Hhi).
  unfold range2, seqZ. by replace (Z.to_nat (hi + 1 - lo)) with 0%nat by lia.
Qed.

(** X12: a class index that the table does not hold stops the run with
    [KeyError]; when it is the first of the range, nothing has been
    drawn, sampled or written. *)
Theorem main_unknown_first_class (lo hi : Z) (w : World) :
  class_ids args !! 0%nat = Some lo → class_ids args !! 1%nat = Some hi →
  (lo <= hi)%Z → by_index in100_class_index !! lo = None →
  main in100_class_index args w = (Raises KeyError, w).
Proof.
  intros Hlo Hhi Hle Hnone. rewrite (main_run lo hi w Hlo Hhi).
  unfold range2. rewrite seqZ_cons by lia. cbn [for_in].
  by rewrite (bind_raises _ _ w KeyError w
                (class_body_unknown in100_class_index args lo w Hnone)).
Qed.

End Main.

(** ** The embedding layer *)

Section Embedding.
Variables (embedding_weights : list tensor) (update_index : Z).

Let self := CustomEmbedding_init embedding_weights update_index.
Let n := Z.of_nat (length embedding_weights).

Lemma weights_length : length (weights self) = length embedding_weights.
Proof.
  subst self. unfold CustomEmbedding_init. cbn [weights].
  by rewrite length_fmap, length_seq.
Qed.

Lemma weights_lookup i :
  (i < length embedding_weights)%nat →
  weights self !! i
  = Some (from_pretrained (take 1 (drop i embedding_weights))
            (negb (Z.of_nat i =? update_index)%Z)).
Proof.
  intros Hi. subst self. unfold CustomEmbedding_init. cbn [weights].
  rewrite list_lookup_fmap, lookup_seq_lt by done. reflexivity.
Qed.

Lemma wrapped_index t :
  (- n <= t < n)%Z →
  (if (t <? 0)%Z then t + n else t)%Z = (t `mod` n)%Z.
Proof.
  intros Ht. destruct (Z.ltb_spec t 0).
  - apply (Z.mod_unique _ _ (-1)); lia.
  - symmetry. apply Z.mod_small. lia.
Qed.

Lemma embed_token_in_range t :
  (- n <= t < n)%Z →
  ∃ e row,
    modulelist_getitem (weights self) t = inr e
    ∧ embedding_weights !! Z.to_nat (t `mod` n) = Some row
    ∧ embedding_call e (zero_index self) = inr [row].
Proof.
  intros Ht. unfold modulelist_getitem. rewrite weights_length. fold n.
  destruct (Z.leb_spec (- n) t); [|lia].
  destruct (Z.ltb_spec t n); [|lia]. cbn [andb].
  rewrite (wrapped_index t Ht).
  assert (Hi : (Z.to_nat (t `mod` n) < length embedding_weights)%nat).
  { pose proof (Z.mod_pos_bound t n). lia. }
  rewrite (weights_lookup _ Hi).
  destruct (lookup_lt_is_Some_2 _ _ Hi) as [row Hrow].
  eexists _, row. split; [reflexivity|]. split; [exact Hrow|].
  subst self. cbn [zero_index CustomEmbedding_init embedding_call].
  unfold row_at, from_pretrained. cbn [weight Z.ltb Z.compare Z.to_nat].
  rewrite lookup_take_lt by lia. rewrite lookup_drop, Nat.add_0_r, Hrow.
  reflexivity.
Qed.

Lemma embed_token_out_of_range t :
  ¬ (- n <= t < n)%Z →
  modulelist_getitem (weights self) t = inl TorchIndexError.
Proof.
  intros Ht. unfold modulelist_getitem. rewrite weights_length. fold n.
  destruct (Z.leb_spec (- n) t); [|reflexivity].
  destruct (Z.ltb_spec t n); [lia|reflexivity].
Qed.

Lemma embed_tokens_in_range tokens :
  Forall (λ t, (- n <= t < n)%Z) tokens →
  embed_tokens self tokens
  = inr ((λ t, [embedding_weights !!! Z.to_nat (t `mod` n)]) <$> tokens).
Proof.
  induction 1 as [|t tokens Ht _ IH]; [reflexivity|].
  destruct (embed_token_in_range t Ht) as (e & row & He & Hrow & Hcall).
  cbn [embed_tokens]. rewrite He, Hcall, IH. cbn [fmap list_fmap].
  by rewrite (list_lookup_total_correct _ _ _ Hrow).
Qed.

Lemma embed_tokens_out_of_range tokens :
  Exists (λ t, ¬ (- n <= t < n)%Z) tokens →
  embed_tokens self tokens = inl TorchIndexError.
Proof.
  induction 1 as [t tokens Ht|t tokens _ IH]; cbn [embed_tokens].
  - by rewrite (embed_token_out_of_range t Ht).
  - destruct (decide (- n <= t < n)%Z) as [Ht|Ht].
    + destruct (embed_token_in_range t Ht) as (e & row & He & _ & Hcall).
      by rewrite He, Hcall, IH.
    + by rewrite (embed_token_out_of_range t Ht).
Qed.

(** X16: for a non-empty first row of tokens, each from [-n] to [n-1]
    where [n] is the number of rows of the matrix, [forward] returns the
    rows of the matrix at the tokens, in their order, a negative token
    counting from the end; the rows after the first of [x] and
    [update_index] play no part. *)
Theorem forward_gathers_rows (tokens : list Z) (more : list (list Z)) :
  tokens ≠ [] → Forall (λ t, (- n <= t < n)%Z) tokens →
  CustomEmbedding_forward self (tokens :: more)
  = inr ((λ t, embedding_weights !!! Z.to_nat (t `mod` n)) <$> tokens).
Proof.
  intros Hne Hrange. unfold CustomEmbedding_forward. cbn [lookup list_lookup].
  rewrite (embed_tokens_in_range tokens Hrange).
  destruct tokens as [|t tokens]; [done|].
  unfold torch_cat. cbn [fmap list_fmap]. f_equal.
  cbn [concat app]. f_equal.
  clear. induction tokens as [|t tokens IH]; [reflexivity|].
  cbn [fmap list_fmap concat app]. by rewrite IH.
Qed.

(** X17: when some token of the first row is below [-n] or above [n-1],
    where [n] is the number of rows of the matrix, [forward] raises the
    index error of the module list, whatever the other tokens, the other
    rows of [x] and [update_index] are. *)
Theorem forward_rejects_unknown_token (tokens : list Z)
    (more : list (list Z)) :
  Exists (λ t, ¬ (- n <= t < n)%Z) tokens →
  CustomEmbedding_forward self (tokens :: more) = inl TorchIndexError.
Proof.
  intros Hout. unfold CustomEmbedding_forward. cbn [lookup list_lookup].
  by rewrite (embed_tokens_out_of_range tokens Hout).
Qed.

(** X18: the layer holds one embedding per row of the matrix, each of
    that one row; the embedding at position [i] is trainable exactly when
    [i = update_index], so at most one is, and none when [update_index]
    is negative or not below the number of rows. *)
Theorem one_trainable_row (i : nat) (e : Embedding) :
  weights self !! i = Some e →
  length (weights self) = length embedding_weights
  ∧ weight e = take 1 (drop i embedding_weights)
  ∧ length (weight e) = 1%nat
  ∧ (frozen e = false ↔ Z.of_nat i = update_index)
  ∧ (¬ (0 <= update_index < n)%Z → frozen e = true).
Proof.
  intros He. pose proof (lookup_lt_Some _ _ _ He) as Hi.
  rewrite weights_length in Hi. rewrite (weights_lookup i Hi) in He.
  injection He as <-. unfold from_pretrained. cbn [weight frozen].
  split; [apply weights_length|]. split; [reflexivity|].
  split; [rewrite length_take, length_drop; lia|].
  destruct (Z.eqb_spec (Z.of_nat i) update_index) as [Heq|Hneq];
    cbn [negb]; (split; [split; [done|]|]); try done; intros; lia.
Qed.
End Embedding.

(** ** The further properties at concrete inputs *)

Lemma attack_calls_classifier_num_iter_times_witness :
  ∃ adv queries w',
    sdmiae_attack (H:=rising_classifier) [0.5; 0.25] 0%Z 0.03 2 0.5 true
      empty_world
    = (Returns adv, w')
    ∧ length adv = 2%nat
    ∧ clf_calls w' = queries
    ∧ length queries = 2%nat
    ∧ queries !! 0%nat = Some [0.5; 0.25].
Proof.
  assert (Hn : 2%Z ≠ 0%Z) by lia.
  destruct (attack_calls_classifier_num_iter_times (H:=rising_classifier)
              [0.5; 0.25] 0%Z 0.03 2 0.5 true empty_world Hn)
    as (adv & queries & w' & Hrun & Hlen & Hcalls & Hq & Hfirst & _).
  exists adv, queries, w'. split; [exact Hrun|]. split; [exact Hlen|].
  split; [exact Hcalls|]. split; [exact Hq|]. apply Hfirst. lia.
Defined.

Lemma attack_negative_num_iter_witness :
  (-3 < 0)%Z
  ∧ sdmiae_attack (H:=rising_classifier) [0.5; 0.25] 0%Z 0.03 (-3) 0.5 true
      empty_world
    = (Returns [0.5; 0.25], empty_world).
Proof.
  assert (Hn : (-3 < 0)%Z) by lia.
  split; [exact Hn|].
  exact (attack_negative_num_iter (H:=rising_classifier) [0.5; 0.25] 0%Z
           0.03 (-3) 0.5 true empty_world Hn).
Defined.

Lemma clamp_overrides_epsilon_ball_witness :
  ∃ adv w' v,
    sdmiae_attack (H:=rising_classifier) [1.5; 0.25] 0%Z 0.03 2 0.5 true
      empty_world
    = (Returns adv, w')
    ∧ adv !! 0%nat = Some v
    ∧ v == 1.
Proof.
  assert (Ho : [1.5; 0.25] !! 0%nat = Some 1.5) by reflexivity.
  assert (Hn : (1 <= 2)%Z) by lia.
  destruct (clamp_overrides_epsilon_ball (H:=rising_classifier) [1.5; 0.25]
              0%Z 0.03 2 0.5 empty_world 0 1.5 Ho Hn)
    as (adv & w' & v & Hrun & Hv & Habove & _).
  exists adv, w', v. split; [exact Hrun|]. split; [exact Hv|].
  apply Habove. lra.
Defined.

Lemma flat_gradient_zero (x : tensor) :
  Forall (λ g, g == 0) (loss_grad (Classifier:=flat_classifier) x 0%Z).
Proof. apply Forall_fmap, Forall_true. intros v. reflexivity. Qed.

Lemma zero_gradient_leaves_image_witness :
  ∃ adv w',
    sdmiae_attack (H:=flat_classifier) [0.5; 0.25] 0%Z 0.03 2 0.5 true
      empty_world
    = (Returns adv, w')
    ∧ Forall2 Qeq adv [0.5; 0.25].
Proof.
  assert (He : true = true → 0 <= 0.03) by (intros _; lra).
  assert (Hn : (1 <= 2)%Z) by lia.
  exact (zero_gradient_leaves_image (H:=flat_classifier) [0.5; 0.25] 0%Z
           0.03 2 0.5 true empty_world flat_gradient_zero gray_pair_unit He
           Hn).
Defined.

Lemma guidance_of_agreeing_predictions_witness :
  Forall2 Qeq (guidance [1; 2] [1; 2] 9.5) [1; 2].
Proof.
  assert (HUC : Forall2 Qeq [1; 2] [1; 2])
    by (repeat constructor; reflexivity).
  exact (guidance_of_agreeing_predictions [1; 2] [1; 2] 9.5 HUC).
Defined.

Lemma chunk2_of_pair_witness :
  chunk2 ([1; 2] ++ [3; 5]) = ([1; 2], [3; 5])
  ∧ chunk2 (cat2 [1; 2]) = ([1; 2], [1; 2]).
Proof.
  assert (Hlen : length [1; 2] = length [3; 5]) by reflexivity.
  exact (chunk2_of_pair [1; 2] [3; 5] Hlen).
Defined.

Lemma small_scale_factor : vae_scale_factor (Pipeline:=small_pipeline) ≠ 0%Z.
Proof. discriminate. Qed.

Lemma main_needs_two_class_ids_witness :
  main (H:=small_pipeline) (H0:=counting_generator) (H1:=rising_classifier)
    one_class_index (with_class_ids [5%Z]) empty_world
  = (Raises IndexError, empty_world).
Proof.
  assert (Hlen : (length (class_ids (with_class_ids [5%Z])) < 2)%nat)
    by (vm_compute; lia).
  exact (main_needs_two_class_ids (H:=small_pipeline)
           (H0:=counting_generator) (H1:=rising_classifier) one_class_index
           (with_class_ids [5%Z]) empty_world Hlen).
Defined.

Lemma main_empty_range_witness :
  main (H:=small_pipeline) (H0:=counting_generator) (H1:=rising_classifier)
    one_class_index (with_class_ids [3%Z; 1%Z; 7%Z]) empty_world
  = (Returns (), empty_world).
Proof.
  assert (Hlt : (1 < 3)%Z) by lia.
  exact (main_empty_range (H:=small_pipeline) (H0:=counting_generator)
           (H1:=rising_classifier) one_class_index
           (with_class_ids [3%Z; 1%Z; 7%Z]) 3 1 empty_world eq_refl eq_refl
           Hlt).
Defined.

Lemma main_unknown_first_class_witness :
  main (H:=small_pipeline) (H0:=counting_generator) (H1:=rising_classifier)
    one_class_index (with_class_ids [4%Z; 6%Z]) empty_world
  = (Raises KeyError, empty_world).
Proof.
  assert (Hle : (4 <= 6)%Z) by lia.
  assert (Hnone : by_index one_class_index !! 4%Z = None)
    by (vm_compute; reflexivity).
  exact (main_unknown_first_class (H:=small_pipeline)
           (H0:=counting_generator) (H1:=rising_classifier) one_class_index
           (with_class_ids [4%Z; 6%Z]) 4 6 empty_world eq_refl eq_refl Hle
           Hnone).
Defined.

Lemma forward_gathers_rows_witness :
  CustomEmbedding_forward (CustomEmbedding_init two_rows 0)
    [[0%Z; (-1)%Z; 1%Z]; [7%Z]]
  = inr [[1; 2]; [3; 4]; [3; 4]].
Proof.
  assert (Hne : [0%Z; (-1)%Z; 1%Z] ≠ []) by discriminate.
  assert (Hrange : Forall (λ t, (- Z.of_nat (length two_rows) <= t
                                 < Z.of_nat (length two_rows))%Z)
                     [0%Z; (-1)%Z; 1%Z]).
  { change (length two_rows) with 2%nat.
    repeat (apply Forall_cons; split; [lia|]). apply Forall_nil_2. }
  exact (forward_gathers_rows two_rows 0 [0%Z; (-1)%Z; 1%Z] [[7%Z]] Hne
           Hrange).
Defined.

Lemma forward_rejects_unknown_token_witness :
  CustomEmbedding_forward (CustomEmbedding_init two_rows 0)
    [[0%Z; 2%Z; 1%Z]; [7%Z]]
  = inl TorchIndexError.
Proof.
  assert (Hout : Exists (λ t, ¬ (- Z.of_nat (length two_rows) <= t
                                 < Z.of_nat (length two_rows))%Z)
                   [0%Z; 2%Z; 1%Z]).
  { change (length two_rows) with 2%nat.
    apply Exists_cons_tl, Exists_cons_hd. lia. }
  exact (forward_rejects_unknown_token two_rows 0 [0%Z; 2%Z; 1%Z] [[7%Z]]
           Hout).
Defined.

Lemma one_trainable_row_witness :
  ∃ e,
    weights (CustomEmbedding_init two_rows 1) !! 1%nat = Some e
    ∧ weight e = [[3; 4]]
    ∧ frozen e = false.
Proof.
  eexists. split; [reflexivity|].
  destruct (one_trainable_row two_rows 1 1 _ eq_refl)
    as (_ & Hrow & _ & Htrain & _).
  split; [exact Hrow|]. apply Htrain. reflexivity.
Defined.

(** * Where rounding decides *)

(** ** The attack without the epsilon clamp *)

(** One iteration on an image of one pixel, for the rising classifier. *)
Lemma rising_step32 `{Reduction} (epsilon alpha mu : float) (o x m : f32) :
  let m' :=
    f32_add (f32_mul (to_f32 mu) m)
      (f32_div f32_one
         (f32_add (SFabs f32_one) (to_f32 (float_literal 1 (10 ^ 10))))) in
  attack_step32 (H0:=rising_classifier32) () epsilon alpha mu false [o]
    (mkAdv32 [x] [m])
  = mkAdv32
      [clamp32 (float_of_int 0) (float_of_int 1)
         (f32_add x (f32_mul (to_f32 alpha) (sign32 m')))]
      [m'].
Proof.
  intros m'. unfold attack_step32, attack_update32, normalize32.
  cbn [st32_images st32_momentum loss_grad32 rising_classifier32 fmap
       list_fmap zip_with].
  by rewrite torch_norm_p1_single.
Qed.

(** C4: with [use_epsilon=False] the returned image can lie outside the
    epsilon-ball around the input while it stays in [0,1].  For the
    one-pixel image 0.5, [epsilon = 0.03], [num_iter = 10], [mu = 0] and
    a classifier whose loss rises with the pixel, ten float32 additions
    of the step [alpha = epsilon / num_iter] return 0.5300002098..., more
    than [epsilon] above the input. *)
Theorem unconstrained_mode_exceeds_epsilon `{Reduction} :
  ∃ (label : Type) (clf : Classifier32 label) (images : list f32)
    (labels : label) (epsilon : float) (num_iter : Z) (mu : float)
    (adv : list f32),
    Forall in_unit32 images
    ∧ SFleb (float_of_int 0) epsilon = true
    ∧ (1 <= num_iter)%Z
    ∧ sdmiae_attack32 images labels epsilon num_iter mu false = Returns adv
    ∧ (∃ i x o,
         adv !! i = Some x ∧ images !! i = Some o
         ∧ float_value epsilon < Qabs (float_value x - float_value o))
    ∧ Forall in_unit32 adv.
Proof.
  exists unit, rising_classifier32, [to_f32 (float_literal 1 2)], tt,
    (float_literal 3 100), 10%Z, (float_of_int 0),
    [S754_finite false 8891928 (-24)].
  split; [by repeat constructor|]. split; [reflexivity|].
  split; [lia|]. split; [|split].
  - unfold sdmiae_attack32. cbn [Z.eqb fmap list_fmap].
    change (Z.to_nat 10) with 10%nat. unfold Nat.iter. cbn [nat_rect].
    rewrite !rising_step32. cbn [st32_images].
    vm_compute. reflexivity.
  - exists 0%nat, (S754_finite false 8891928 (-24)),
      (to_f32 (float_literal 1 2)).
    split; [reflexivity|]. split; [reflexivity|]. vm_compute. reflexivity.
  - by repeat constructor.
Qed.

(** ** The guidance combination *)

(** C5, as stated, does not hold on float32: for [U = 1e8], [C = 1] and
    [guidance_scale = 1] the difference [C - U] rounds to [-1e8] and the
    combination is 0, not [C]. *)
Lemma guidance_of_scale_one_is_not_conditional :
  let u := to_f32 (float_of_int 100000000) in
  let c := f32_one in
  guidance32 u c (float_of_int 1) = f32_zero
  ∧ float_value (guidance32 u c (float_of_int 1)) == 0
  ∧ float_value c == 1
  ∧ SFeqb (guidance32 u c (float_of_int 1)) c = false.
Proof. vm_compute. repeat split; reflexivity. Qed.

Lemma SFeqb_refl (x : f32) : f32_finite x = true → SFeqb x x = true.
Proof.
  destruct x as [s|s| |s m e]; try done. intros _.
  unfold SFeqb, SFcompare.
  by destruct s; rewrite Z.compare_refl, ?Pos.compare_cont_refl.
Qed.

Lemma guidance32_scale_zero (u c : f32) :
  f32_finite u = true → f32_finite (f32_sub c u) = true →
  SFeqb (guidance32 u c (float_of_int 0)) u = true.
Proof.
  intros Hu Hd. unfold guidance32.
  change (to_f32 (float_of_int 0)) with (S754_zero false).
  destruct (f32_sub c u) as [s|s| |s m e]; try done;
    destruct u as [su|su| |su mu eu]; try done;
    cbn [f32_mul SFmul f32_add SFadd xorb].
  - by destruct su, s.
  - by apply SFeqb_refl.
  - by destruct su, s.
  - by apply SFeqb_refl.
Qed.

(** C5, as the code has it: the combination of line 104 is
    [U + g * (C - U)] with every operation rounded to float32.  In exact
    arithmetic it equals [C] for [g = 1] and [U] for [g = 0], entry by
    entry; on float32, with [g = 0] it equals [U] whenever [U] is finite
    and [C - U] does not overflow. *)
Theorem guidance_exact_and_rounded (U C : tensor) (g : Q) (u c : f32) :
  (∀ i a b, U !! i = Some a → C !! i = Some b →
     guidance U C g !! i = Some (a + g * (b - a)))
  ∧ (length U = length C → g == 1 → Forall2 Qeq (guidance U C g) C)
  ∧ (length U = length C → g == 0 → Forall2 Qeq (guidance U C g) U)
  ∧ (f32_finite u = true → f32_finite (f32_sub c u) = true →
     SFeqb (guidance32 u c (float_of_int 0)) u = true).
Proof.
  split; [apply guidance_lookup|].
  split; [|split; [|apply guidance32_scale_zero]];
    intros Hlen Hg;
    (apply Forall2_same_length_lookup_2;
     [rewrite guidance_length by done; lia|]);
    intros i v y Hv Hy.
  - destruct (lookup_lt_is_Some_2 U i) as [a Ha].
    { rewrite Hlen. by eapply lookup_lt_Some. }
    rewrite (guidance_lookup U C g i a y Ha Hy) in Hv.
    injection Hv as <-. rewrite Hg. lra.
  - destruct (lookup_lt_is_Some_2 C i) as [b Hb].
    { rewrite <- Hlen. by eapply lookup_lt_Some. }
    rewrite (guidance_lookup U C g i y b Hy Hb) in Hv.
    injection Hv as <-. rewrite Hg. lra.
Qed.

Lemma guidance_exact_and_rounded_witness :
  Forall2 Qeq (guidance [1; 2] [3; 5] 1) [3; 5]
  ∧ Forall2 Qeq (guidance [1; 2] [3; 5] 0) [1; 2]
  ∧ SFeqb
      (guidance32 (to_f32 (float_of_int 100000000)) f32_one
         (float_of_int 0))
      (to_f32 (float_of_int 100000000)) = true.
Proof.
  assert (Hlen : length [1; 2] = length [3; 5]) by reflexivity.
  assert (H1 : 1 == 1) by reflexivity.
  assert (H0 : 0 == 0) by reflexivity.
  assert (Hu : f32_finite (to_f32 (float_of_int 100000000)) = true)
    by reflexivity.
  assert (Hd : f32_finite
                 (f32_sub f32_one (to_f32 (float_of_int 100000000))) = true)
    by reflexivity.
  split; [|split].
  - exact (proj1 (proj2 (guidance_exact_and_rounded [1; 2] [3; 5] 1
                           f32_zero f32_zero)) Hlen H1).
  - exact (proj1 (proj2 (proj2 (guidance_exact_and_rounded [1; 2] [3; 5] 0
                                  f32_zero f32_zero))) Hlen H0).
  - exact (proj2 (proj2 (proj2
             (guidance_exact_and_rounded [] [] 0
                (to_f32 (float_of_int 100000000)) f32_one))) Hu Hd).
Defined.

(** * The momentum *)

Lemma sum_over_fmap f (g : nat → nat) ds :
  sum_over f (g <$> ds) = sum_over (λ d, f (g d)) ds.
Proof. induction ds as [|d ds IH]; [done|]. simpl. by rewrite <- IH. Qed.

Lemma sum_over_ext f g ds :
  (∀ d, f d == g d) → sum_over f ds == sum_over g ds.
Proof.
  intros Hfg. induction ds as [|d ds IH]; [reflexivity|].
  cbn [sum_over foldr]. fold (sum_over f ds) (sum_over g ds).
  by rewrite IH, Hfg.
Qed.

Lemma sum_over_scale c f ds :
  sum_over (λ d, c * f d) ds == c * sum_over f ds.
Proof.
  induction ds as [|d ds IH]; [cbn; ring|].
  cbn [sum_over foldr].
  fold (sum_over (λ d, c * f d) ds) (sum_over f ds). rewrite IH. ring.
Qed.

(** The sum of the gradients, the one of age [d] weighted by [mu ^ d],
    grows by one term per iteration. *)
Lemma decayed_sum_succ mu (term : nat → Q) k :
  sum_over (λ d, Qpow mu d * term (S k - d)%nat) (seq 0 (S (S k)))
  == mu * sum_over (λ d, Qpow mu d * term (k - d)%nat) (seq 0 (S k))
     + term (S k).
Proof.
  change (seq 0 (S (S k))) with (0%nat :: seq 1 (S k)).
  rewrite <- fmap_S_seq. cbn [sum_over foldr].
  fold (sum_over (λ d, Qpow mu d * term (S k - d)%nat) (S <$> seq 0 (S k))).
  rewrite sum_over_fmap, <- sum_over_scale.
  rewrite (sum_over_ext _ (λ d, mu * (Qpow mu d * term (k - d)%nat))).
  - change (Qpow mu 0) with 1. rewrite Nat.sub_0_r. ring.
  - intros d. change (Qpow mu (S d)) with (mu * Qpow mu d).
    change (S k - S d)%nat with (k - d)%nat. ring.
Qed.

Section Momentum.
Context `{Classifier label}.
Variables (images : tensor) (labels : label).
Variables (epsilon : Q) (num_iter : Z) (mu : Q) (use_epsilon : bool).
Variable i : nat.
Hypothesis Hi : (i < length images)%nat.

Let state := attack_state images labels epsilon num_iter mu use_epsilon.
Let gradient (j : nat) := loss_grad (st_images (state j)) labels.
Let normalized (j : nat) : Q :=
  nth i (gradient j) 0
  / (foldr (λ v acc, Qabs v + acc) 0 (gradient j) + (1 # 10000000000)).

(** The entries at position [i] before and after iteration [k]. *)
Lemma momentum_step k :
  ∃ o x m m',
    images !! i = Some o
    ∧ st_images (state k) !! i = Some x
    ∧ st_momentum (state k) !! i = Some m
    ∧ st_momentum (state (S k)) !! i = Some m'
    ∧ m' = mu * m + normalized k
    ∧ st_images (state (S k)) !! i
      = Some (pixel_entry epsilon (epsilon / inject_Z num_iter) use_epsilon
                o x m').
Proof.
  destruct (lookup_lt_is_Some_2 _ _ Hi) as [o Ho].
  destruct (attack_state_entries images labels epsilon num_iter mu
              use_epsilon k i o Ho) as (x & m & g & Hx & Hm & Hg).
  destruct (attack_update_entry epsilon (epsilon / inject_Z num_iter) mu
              use_epsilon images _ _ i o x m g Ho Hx Hm Hg) as [Hm' Hx'].
  exists o, x, m, (mu * m + normalized k).
  subst state. rewrite attack_state_succ.
  assert (Hn : momentum_entry mu m
                 (g / (norm_p1
                         (loss_grad
                            (st_images
                               (attack_state images labels epsilon num_iter
                                  mu use_epsilon k)) labels) + 1e-10))
               = mu * m + normalized k).
  { subst normalized gradient. cbv beta.
    by rewrite (nth_lookup_Some _ _ 0 _ Hg). }
  rewrite Hn in Hm', Hx'. done.
Qed.

Lemma momentum_closed_form k :
  ∃ m', st_momentum (state (S k)) !! i = Some m'
    ∧ m' == sum_over (λ d, Qpow mu d * normalized (k - d)%nat)
              (seq 0 (S k)).
Proof.
  induction k as [|k (m & Hm & IH)].
  - destruct (momentum_step 0) as (o & x & m & m' & _ & _ & Hm & Hm' & -> & _).
    exists (mu * m + normalized 0%nat). split; [exact Hm'|].
    subst state. rewrite attack_state_zero in Hm. cbn [st_momentum] in Hm.
    unfold zeros_like in Hm. rewrite list_lookup_fmap in Hm.
    destruct (images !! i); simplify_eq/=. unfold sum_over. cbn. ring.
  - destruct (momentum_step (S k))
      as (o & x & m0 & m' & _ & _ & Hm0 & Hm' & -> & _).
    rewrite Hm in Hm0. injection Hm0 as <-.
    exists (mu * m + normalized (S k)). split; [exact Hm'|].
    by rewrite decayed_sum_succ, IH.
Qed.
End Momentum.

(** C8.  [sdmiae_attack] with at least one iteration returns the images
    of the state after [num_iter] iterations, having evaluated the
    classifier on the images of every earlier state; writing
    [normalized j] for entry [i] of the gradient of iteration [j] divided
    by the sum of the absolute values of that gradient plus 1e-10, the
    momentum entry after iteration [k] is [mu] times the entry before it
    plus [normalized k]; it is the sum of [mu^d * normalized (k - d)] over
    the iterations [k - d] so far, nothing being reset; with [mu = 0] it
    is [normalized k] alone; and the image entry of iteration [k] moves
    by the step size times the sign of that momentum entry. *)
Theorem momentum_is_decayed_sum `{Classifier label} (images : tensor)
    (labels : label) (epsilon : Q) (num_iter : Z) (mu : Q)
    (use_epsilon : bool) (w : World) (k i : nat) :
  (1 <= num_iter)%Z →
  (k < Z.to_nat num_iter)%nat →
  (i < length images)%nat →
  let state := attack_state images labels epsilon num_iter mu use_epsilon in
  let gradient j := loss_grad (st_images (state j)) labels in
  let normalized j :=
    nth i (gradient j) 0
    / (foldr (λ v acc, Qabs v + acc) 0 (gradient j) + (1 # 10000000000)) in
  sdmiae_attack images labels epsilon num_iter mu use_epsilon w
  = (Returns (st_images (state (Z.to_nat num_iter))),
     record_calls w ((λ j, st_images (state j))
                     <$> seq 0 (Z.to_nat num_iter)))
  ∧ ∃ o x m m',
      images !! i = Some o
      ∧ st_images (state k) !! i = Some x
      ∧ st_momentum (state k) !! i = Some m
      ∧ st_momentum (state (S k)) !! i = Some m'
      ∧ m' == mu * m + normalized k
      ∧ m' == sum_over (λ d, Qpow mu d * normalized (k - d)%nat)
                (seq 0 (S k))
      ∧ (mu == 0 → m' == normalized k)
      ∧ st_images (state (S k)) !! i
        = Some (clamp_entry 0 1
                  (if use_epsilon
                   then Qmax (Qmin (x + epsilon / inject_Z num_iter
                                        * sign_entry m') (o + epsilon))
                          (o - epsilon)
                   else x + epsilon / inject_Z num_iter * sign_entry m')).
Proof.
  intros Hn _ Hi state gradient normalized. split.
  { apply sdmiae_attack_returns. lia. }
  destruct (momentum_step images labels epsilon num_iter mu use_epsilon i
              Hi k) as (o & x & m & m' & Ho & Hx & Hm & Hm' & E & Hx').
  destruct (momentum_closed_form images labels epsilon num_iter mu
              use_epsilon i Hi k) as (m2 & Hm2 & Hsum).
  rewrite Hm' in Hm2. injection Hm2 as <-.
  exists o, x, m, m'. repeat split; try assumption.
  - rewrite E. reflexivity.
  - intros Hmu. rewrite E. change (mu * m + normalized k == normalized k).
    generalize (normalized k). intros q.
    transitivity (0 * m + q); [|ring].
    apply Qplus_comp; [apply Qmult_comp|]; [exact Hmu|reflexivity..].
Qed.

Lemma momentum_is_decayed_sum_witness :
  let state :=
    attack_state (H := tracking_classifier) [1 # 2; 1 # 4] 0%Z (1 # 10) 3
      (1 # 2) true in
  ∃ m m',
    st_momentum (state 1%nat) !! 0%nat = Some m
    ∧ st_momentum (state 2%nat) !! 0%nat = Some m'
    ∧ ¬ m == 0
    ∧ m' == (1 # 2) * m
            + nth 0 (st_images (state 1%nat)) 0
              / (foldr (λ v acc, Qabs v + acc) 0 (st_images (state 1%nat))
                 + (1 # 10000000000)).
Proof.
  intros state.
  destruct (momentum_is_decayed_sum (H := tracking_classifier)
              [1 # 2; 1 # 4] 0%Z (1 # 10) 3 (1 # 2) true empty_world 1 0)
    as (_ & o & x & m & m' & _ & _ & Hm & Hm' & E & _);
    [lia | simpl; lia | simpl; lia |].
  exists m, m'. repeat split; [exact Hm | exact Hm' | | exact E].
  vm_compute in Hm. injection Hm as <-. vm_compute. discriminate.
Defined.

(** * The latent of a class *)

Section ClassBlock.
Context `{Pipeline} `{Generator} `{Classifier Z}.
Variables (args : Args) (label : string) (class_id : Z).

(** Lines 146-170 on a class whose label and id are known: one draw, two
    new tensor objects (the draw and its product with the initial sigma),
    and the sample loop on the second of them. *)
Lemma class_samples_run w :
  vae_scale_factor ≠ 0%Z →
  (0 <= unet_in_channels)%Z →
  (0 <= img_size args `div` vae_scale_factor)%Z →
  ∃ w',
    class_samples args label class_id w = (Returns (), w')
    ∧ rng w' = S (rng w)
    ∧ sampler_inputs w'
      = sampler_inputs w
        ++ replicate (Z.to_nat (num_samples_per_class args))
             (S (length (heap w)), class_latent args (rng w)).
Proof.
  intros Hscale Hc Hside.
  set (side := (img_size args `div` vae_scale_factor)%Z) in *.
  set (z := randn_draw (rng w)
              (Z.to_nat
                 (foldr Z.mul 1%Z [1%Z; unet_in_channels; side; side]))).
  set (w2 := mkWorld (heap w ++ [z] ++ [(λ v, v * init_noise_sigma) <$> z])
               (S (rng w)) (clf_calls w) (sampler_inputs w) (files w)).
  assert (Hl : (S (length (heap w)) < length (heap w2))%nat).
  { subst w2. cbn [heap]. rewrite !length_app. simpl. lia. }
  destruct (for_in_sample_evolves args label class_id (S (length (heap w)))
              (encode_text "" ++ encode_text label)
              (range (num_samples_per_class args)) w2 Hl)
    as (w' & Hrun & Hheap & Hrng & Hseen).
  assert (Hv : heap w2 !!! S (length (heap w))
               = (λ v, v * init_noise_sigma) <$> z).
  { subst w2. cbn [heap]. apply list_lookup_total_correct.
    rewrite lookup_app_r by lia.
    replace (S (length (heap w)) - length (heap w))%nat with 1%nat by lia.
    reflexivity. }
  exists w'. split; [|split].
  - rewrite <- Hrun. unfold class_samples, py_floordiv.
    destruct (Z.eqb_spec vae_scale_factor 0) as [|_]; [done|].
    fold side. unfold torch_randn_shape.
    assert (Hshape : forallb (λ d, 0 <=? d)%Z
                       [1%Z; unet_in_channels; side; side] = true).
    { cbn [forallb]. rewrite !andb_true_iff, !Z.leb_le. lia. }
    unfold mbind, py_bind at 1. unfold mret at 1, py_ret at 1.
    rewrite Hshape.
    unfold sample_loop, mbind, py_bind, mret, py_ret.
    unfold torch_randn, alloc, load. cbn [heap rng clf_calls sampler_inputs
      files]. fold z.
    rewrite length_app. cbn [length].
    replace (length (heap w) + 1)%nat with (S (length (heap w))) by lia.
    rewrite (list_lookup_total_correct (heap w ++ [z]) (length (heap w)) z)
      by (rewrite lookup_app_r by lia; by rewrite Nat.sub_diag).
    subst w2. by rewrite <- app_assoc.
  - rewrite Hrng. reflexivity.
  - rewrite Hseen, Hv. unfold range. rewrite length_seqZ.
    reflexivity.
Qed.
End ClassBlock.

(** C3, as the code has it.  On a class whose label and id are known, with
    a non-zero scale factor of the decoder and no negative dimension,
    lines 146-170 return after one draw from the generator, whatever the
    number of samples, and every sample of the class hands the sampler the
    same tensor object: the product of that one draw and the initial
    sigma of the scheduler, made before the loop over the samples. *)
Theorem latent_drawn_once_per_class `{Pipeline} `{Generator}
    `{Classifier Z} (args : Args) (label : string) (class_id : Z)
    (w : World) :
  vae_scale_factor ≠ 0%Z →
  (0 <= unet_in_channels)%Z →
  (0 <= img_size args `div` vae_scale_factor)%Z →
  ∃ w',
    class_samples args label class_id w = (Returns (), w')
    ∧ rng w' = S (rng w)
    ∧ sampler_inputs w'
      = sampler_inputs w
        ++ replicate (Z.to_nat (num_samples_per_class args))
             (S (length (heap w)), class_latent args (rng w)).
Proof. apply class_samples_run. Qed.

(** Two samples of one class: the generator is used once, and the second
    sample is run on the tensor object of the first, whose entries are
    those of the first draw and not those a second draw would give. *)
Lemma latent_reused_across_samples :
  ∃ w' l v,
    class_samples (H := small_pipeline) (H0 := counting_generator)
      (H1 := rising_classifier) two_samples "tench" 0 empty_world
    = (Returns (), w')
    ∧ rng w' = 1%nat
    ∧ sampler_inputs w' = [(l, v); (l, v)]
    ∧ v = class_latent (H := small_pipeline) (H0 := counting_generator)
            two_samples 0
    ∧ ∃ a b,
        v !! 0%nat = Some a
        ∧ class_latent (H := small_pipeline) (H0 := counting_generator)
            two_samples 1 !! 0%nat = Some b
        ∧ ¬ a == b.
Proof.
  destruct (class_samples_run (H := small_pipeline)
              (H0 := counting_generator) (H1 := rising_classifier)
              two_samples "tench" 0 empty_world)
    as (w' & Hrun & Hrng & Hseen); [discriminate | vm_compute; discriminate..|].
  exists w', 1%nat,
    (class_latent (H := small_pipeline) (H0 := counting_generator)
       two_samples 0).
  split; [exact Hrun|]. split; [exact Hrng|]. split; [exact Hseen|].
  split; [reflexivity|].
  exists (0.25 * 1), ((1 + 0.25) * 1). split; [reflexivity|].
  split; [reflexivity|]. vm_compute. discriminate.
Qed.

Lemma latent_drawn_once_per_class_witness :
  ∃ w',
    class_samples (H := small_pipeline) (H0 := counting_generator)
      (H1 := rising_classifier) two_samples "tench" 0 empty_world
    = (Returns (), w')
    ∧ rng w' = 1%nat
    ∧ length (sampler_inputs w') = 2%nat.
Proof.
  destruct (latent_drawn_once_per_class (H := small_pipeline)
              (H0 := counting_generator) (H1 := rising_classifier)
              two_samples "tench" 0 empty_world)
    as (w' & Hrun & Hrng & Hseen); [discriminate | vm_compute; discriminate..|].
  exists w'. split; [exact Hrun|]. split; [exact Hrng|].
  rewrite Hseen. reflexivity.
Defined.

(** X19: with the table that [json.load] makes of a JSON object, whose
    keys are strings, [main] on a range of at least one class raises
    [KeyError] at the lookup of the first class index, an integer, before
    anything is drawn, sampled or written. *)
Theorem main_on_loaded_table `{Pipeline} `{Generator} `{Classifier Z}
    (entries : gmap string (list Z)) (args : Args) (lo hi : Z)
    (w : World) :
  class_ids args !! 0%nat = Some lo → class_ids args !! 1%nat = Some hi →
  (lo <= hi)%Z →
  main (json_load_object entries) args w = (Raises KeyError, w).
Proof.
  intros Hlo Hhi Hle. rewrite (main_run _ args lo hi w Hlo Hhi).
  unfold range2. rewrite seqZ_cons by lia. cbn [for_in].
  assert (Hnone : by_index (json_load_object entries) !! lo = None)
    by apply lookup_empty.
  by rewrite (bind_raises _ _ w KeyError w
                (class_body_unknown _ args lo w Hnone)).
Qed.

Lemma main_on_loaded_table_witness :
  main (H:=small_pipeline) (H0:=counting_generator) (H1:=rising_classifier)
    (json_load_object {[ "0" := [0%Z]; "tench" := [0%Z] ]})
    (with_class_ids [0%Z; 1%Z]) empty_world
  = (Raises KeyError, empty_world).
Proof.
  assert (Hle : (0 <= 1)%Z) by lia.
  exact (main_on_loaded_table (H:=small_pipeline) (H0:=counting_generator)
           (H1:=rising_classifier) {[ "0" := [0%Z]; "tench" := [0%Z] ]}
           (with_class_ids [0%Z; 1%Z]) 0 1 empty_world eq_refl eq_refl Hle).
Defined.
